(** * Shallow embedding of the ShipSpotting scraper (recognition_scraper_tool)

    Python strings are modelled as Rocq [string]s over ASCII; the regular
    expression classes [\d] and [\s] and the case folding of [re.I] and
    [str.lower] are the ASCII ones. A Python [set] of strings is a
    duplicate-free list, [set.add] appends a missing element; the order of
    [list(s)] is the insertion order of the model (Python leaves it
    unspecified). Network and storage calls are oracles or explicit
    success flags passed to the functions that perform them. *)

From Stdlib Require Import String Ascii List ZArith Bool Lia.
From Stdlib Require Import Permutation Sorting.Permutation Sorting.Sorted.
Import ListNotations.
Open Scope string_scope.

(** ** Characters and strings *)

Definition is_ascii_digit (c : ascii) : bool :=
  let n := nat_of_ascii c in (48 <=? n)%nat && (n <=? 57)%nat.

(** [str.isdigit]: non-empty and every character a digit. *)
Definition str_isdigit (s : string) : bool :=
  match s with
  | EmptyString => false
  | _ => forallb is_ascii_digit (list_ascii_of_string s)
  end.

(** The 7-digit IMO check repeated all over [gcs_helper.py]:
    [str(imo).isdigit() and len(str(imo)) == 7]. *)
Definition valid_imo (s : string) : bool :=
  str_isdigit s && (String.length s =? 7)%nat.

(** [str.isspace] on one ASCII character: tab to carriage return, the
    separators 0x1c-0x1f and space; also the class [\s] of [re]. *)
Definition py_isspace (c : ascii) : bool :=
  let n := nat_of_ascii c in
  ((9 <=? n) && (n <=? 13))%nat || ((28 <=? n) && (n <=? 32))%nat.

(** [str.lower] on one ASCII character. *)
Definition lower_char (c : ascii) : ascii :=
  let n := nat_of_ascii c in
  if ((65 <=? n) && (n <=? 90))%nat then ascii_of_nat (n + 32) else c.

Definition str_lower (s : string) : string :=
  string_of_list_ascii (map lower_char (list_ascii_of_string s)).

Fixpoint drop_while {A} (p : A -> bool) (l : list A) : list A :=
  match l with
  | [] => []
  | x :: r => if p x then drop_while p r else l
  end.

Fixpoint take_while {A} (p : A -> bool) (l : list A) : list A :=
  match l with
  | [] => []
  | x :: r => if p x then x :: take_while p r else []
  end.

(** [str.strip()] *)
Definition str_strip (s : string) : string :=
  let l := list_ascii_of_string s in
  string_of_list_ascii
    (rev (drop_while py_isspace (rev (drop_while py_isspace l)))).

(** [s.rstrip('/')] *)
Definition rstrip_slash (s : string) : string :=
  string_of_list_ascii
    (rev (drop_while (fun c => Ascii.eqb c "/"%char)
                     (rev (list_ascii_of_string s)))).

(** [s.split('/')[-1]]: the text after the last slash. *)
Definition split_slash_last (s : string) : string :=
  string_of_list_ascii
    (rev (take_while (fun c => negb (Ascii.eqb c "/"%char))
                     (rev (list_ascii_of_string s)))).

(** ** Python sets of strings *)

Definition set_mem (x : string) (s : list string) : bool :=
  existsb (String.eqb x) s.

Definition set_add (x : string) (s : list string) : list string :=
  if set_mem x s then s else s ++ [x].

(** [s.update(xs)] *)
Definition set_update (s xs : list string) : list string :=
  fold_left (fun acc x => set_add x acc) xs s.

(** [set(xs)] *)
Definition set_of (xs : list string) : list string := set_update [] xs.

(** [a - b] *)
Definition set_diff (a b : list string) : list string :=
  filter (fun x => negb (set_mem x b)) a.

(** [sorted(xs)] on strings: insertion sort with the code-point order. *)
Fixpoint str_insert (x : string) (l : list string) : list string :=
  match l with
  | [] => [x]
  | y :: r => if String.leb x y then x :: y :: r else y :: str_insert x r
  end.

Fixpoint str_sort (l : list string) : list string :=
  match l with
  | [] => []
  | x :: r => str_insert x (str_sort r)
  end.

(** ** Dedup index ([GCSManager] in gcs_helper.py) *)
Module Gcs.

(** The JSON document stored at [imo_json_path], by the shapes
    [_load_imo_json] distinguishes; list entries and dict keys are given
    as their [str(...)]. [DCorrupt] is a document [json.loads] rejects. *)
Inductive doc :=
| DList (xs : list string)          (* a JSON list *)
| DImos (xs : list string)          (* a dict with an "imos" list *)
| DImoNumbers (xs : list string)    (* a dict with an "imo_numbers" list *)
| DKeys (ks : list string)          (* any other dict: its keys *)
| DOther                            (* any other JSON value *)
| DCorrupt.

Record state := mkState {
  persisted : option doc;             (* the blob; [None]: it does not exist *)
  cached_imos : option (list string); (* [self._cached_imos] *)
  new_imos : list string              (* [self._new_imos_this_session] *)
}.

(** [_load_imo_json]; [read_ok = false] is an exception raised by
    [blob.exists()] or [blob.download_as_text()], caught by the handler. *)
Definition load_imo_json (read_ok : bool) (p : option doc) : list string :=
  if negb read_ok then [] else
  match p with
  | None => []
  | Some d =>
      let imos :=
        match d with
        | DList xs | DImos xs | DImoNumbers xs =>
            set_of (filter valid_imo xs)
        | DKeys ks => set_update [] (filter valid_imo ks)
        | DOther => []
        | DCorrupt => []
        end in
      filter valid_imo imos
  end.

(** [_save_imo_json]: writes [{"last_updated": ..., "imo_numbers": sorted}];
    a failed upload is logged and leaves the blob as it was. *)
Definition save_imo_json (write_ok : bool) (imos : list string)
    (p : option doc) : option doc :=
  if write_ok
  then Some (DImoNumbers (str_sort (filter valid_imo imos)))
  else p.

(** [upload_image]: [upload_ok = false] is an exception from one of the two
    blob uploads, turned into [False]. *)
Definition upload_image (upload_ok : bool) (imo : string) (st : state)
    : bool * state :=
  if upload_ok
  then (true, mkState (persisted st) (cached_imos st) (set_add imo (new_imos st)))
  else (false, st).

(** [check_existing_imos] *)
Definition check_existing_imos (read_ok : bool) (st : state)
    : list string * state :=
  match cached_imos st with
  | Some c => (c, st)
  | None =>
      let c := load_imo_json read_ok (persisted st) in
      (c, mkState (persisted st) (Some c) (new_imos st))
  end.

(** [check_imo_exists] *)
Definition check_imo_exists (read_ok : bool) (imo : string) (st : state)
    : bool * state :=
  match cached_imos st with
  | Some c => (set_mem imo c, st)
  | None =>
      let c := load_imo_json read_ok (persisted st) in
      (set_mem imo c, mkState (persisted st) (Some c) (new_imos st))
  end.

(** [update_imo_gallery_json]: the end-of-run flush. *)
Definition update_imo_gallery_json (read_ok write_ok : bool) (st : state)
    : state :=
  match new_imos st with
  | [] => st
  | _ =>
      let current_imos := load_imo_json read_ok (persisted st) in
      let valid_new_imos := filter valid_imo (new_imos st) in
      let updated_imos := set_update current_imos valid_new_imos in
      mkState (save_imo_json write_ok updated_imos (persisted st))
              (Some updated_imos) []
  end.

(** [test_connection], on an accessible bucket. *)
Definition test_connection (read_ok : bool) (st : state) : state :=
  mkState (persisted st) (Some (load_imo_json read_ok (persisted st)))
          (new_imos st).

(** The persisted identifier set: what a successful reload reads. *)
Definition persisted_set (st : state) : list string :=
  load_imo_json true (persisted st).

(** [imo_pattern] of [rebuild_imo_gallery_json]: "IMO", then any number
    of the separators [_], [-] or [\s], then exactly seven digits captured,
    with [re.I]; tried at the start of [l]. The separators are no digits,
    so the greedy repetition needs no backtracking. *)
Definition imo_sep (c : ascii) : bool :=
  Ascii.eqb c "_"%char || Ascii.eqb c "-"%char || py_isspace c.

Definition imo_match_at (l : list ascii) : option string :=
  match l with
  | c1 :: c2 :: c3 :: rest =>
      if Ascii.eqb (lower_char c1) "i"%char && Ascii.eqb (lower_char c2) "m"%char
         && Ascii.eqb (lower_char c3) "o"%char
      then
        let d := firstn 7 (drop_while imo_sep rest) in
        if (List.length d =? 7)%nat && forallb is_ascii_digit d
        then Some (string_of_list_ascii d) else None
      else None
  | _ => None
  end.

(** [imo_pattern.search(folder_name)], returning [match.group(1)]. *)
Fixpoint imo_search (l : list ascii) : option string :=
  match imo_match_at l with
  | Some g => Some g
  | None => match l with [] => None | _ :: r => imo_search r end
  end.

(** The body of the loop over [blobs.prefixes]. *)
Definition rebuild_step (existing : list string) (prefix : string)
    : list string :=
  let folder_name := split_slash_last (rstrip_slash prefix) in
  match imo_search (list_ascii_of_string folder_name) with
  | Some imo =>
      if str_isdigit imo && (String.length imo =? 7)%nat
      then set_add imo existing else existing
  | None =>
      if str_isdigit folder_name && (String.length folder_name =? 7)%nat
      then set_add folder_name existing else existing
  end.

(** The iterator [self.client.list_blobs(..., delimiter='/')] returns:
    the pages of the listing not read yet, each given by the folder
    prefixes it reports, and the [prefixes] attribute, the set the library
    fills with those folder prefixes as it reads each page. *)
Record blob_iterator := mkIterator {
  it_pages : list (list string);
  it_prefixes : list string
}.

(** [list_blobs] is lazy: it returns before the first page is read, so
    [prefixes] is still empty. *)
Definition list_blobs_delimited (listing : list (list string)) : blob_iterator :=
  mkIterator listing [].

(** [rebuild_imo_gallery_json]; [listing] is the listing under
    [photo_base + '/'] page by page. The loop reads [blobs.prefixes]
    without iterating over [blobs], so no page is read. *)
Definition rebuild_imo_gallery_json (write_ok : bool) (listing : list (list string))
    (st : state) : list string * state :=
  let blobs := list_blobs_delimited listing in
  let existing_imos := fold_left rebuild_step (it_prefixes blobs) [] in
  match existing_imos with
  | [] => (existing_imos, st)
  | _ => (existing_imos,
          mkState (save_imo_json write_ok existing_imos (persisted st))
                  (Some existing_imos) (new_imos st))
  end.

(** The index operations a run performs before its end-of-run flush. *)
Inductive op :=
| OUpload (upload_ok : bool) (imo : string)
| OCheckExisting (read_ok : bool)
| OCheckExists (read_ok : bool) (imo : string)
| OTestConnection (read_ok : bool)
| ORebuild (write_ok : bool) (listing : list (list string)).

Definition step (o : op) (st : state) : state :=
  match o with
  | OUpload ok imo => snd (upload_image ok imo st)
  | OCheckExisting r => snd (check_existing_imos r st)
  | OCheckExists r imo => snd (check_imo_exists r imo st)
  | OTestConnection r => test_connection r st
  | ORebuild w ps => snd (rebuild_imo_gallery_json w ps st)
  end.

Definition run (ops : list op) (st : state) : state :=
  fold_left (fun s o => step o s) ops st.

End Gcs.

(** ** Identifier source (imo_extractor.py) *)
Module Extractor.

(** The placeholder values [get_imo_numbers_with_details] refuses. *)
Definition null_like : list string := ["null"; "n/a"; "none"; "0"].

(** The test of the loop of [get_imo_numbers_with_details] on
    [vessel.get("imo")]: [imo and imo.strip() and
    imo.strip().lower() not in {...}], giving [imo.strip()]. *)
Definition accept_imo (imo : option string) : option string :=
  match imo with
  | None => None
  | Some s =>
      if negb (String.eqb s "") && negb (String.eqb (str_strip s) "")
         && negb (set_mem (str_lower (str_strip s)) null_like)
      then Some (str_strip s) else None
  end.

(** [imo_list]: the accepted identifiers in the order of the vessels. *)
Fixpoint collect_imos (vessel_imos : list (option string)) : list string :=
  match vessel_imos with
  | [] => []
  | v :: r =>
      match accept_imo v with
      | Some x => x :: collect_imos r
      | None => collect_imos r
      end
  end.

(** [HaifaBayTracker.get_imo_numbers_with_details], on the [imo] fields of
    the vessels [get_haifa_vessels] returned; the details dict is only
    display data and is left out. *)
Definition get_imo_numbers_with_details (vessel_imos : list (option string))
    : list string :=
  str_sort (set_of (collect_imos vessel_imos)).

Definition HARD_CODED_IMOS : list string :=
  ["9387421"; "9734567"; "9123456"; "9701234"; "9876543"].

(** [extract_haifa_imos mode]: an unknown mode falls back to "hardcoded". *)
Definition extract_haifa_imos (mode : string)
    (vessel_imos : list (option string)) : list string :=
  if String.eqb mode "api" then get_imo_numbers_with_details vessel_imos
  else HARD_CODED_IMOS.

(** [find_missing_imos], against the set [check_existing_imos] returned. *)
Definition find_missing_imos (haifa_imos existing_imos : list string)
    : list string * list string :=
  (filter (fun imo => negb (set_mem imo existing_imos)) haifa_imos,
   filter (fun imo => set_mem imo existing_imos) haifa_imos).

End Extractor.

(** ** Resilient session ([CloudscraperSession] in shipspotting_scraper.py) *)
Module Session.
Open Scope Z_scope.

(** What one [self.session.get(...)] gives: a response with its status
    code, or an exception (timeout, connection error, ...). *)
Inductive outcome :=
| Resp (status : Z)
| TransportError.

(** The remote site: the answer to the [k]-th request sent by the
    process, by URL. *)
Definition remote := nat -> string -> outcome.

(** Delays of [get], in the order they happen. *)
Inductive event :=
| RandomDelay                   (* uniform(MIN_REQUEST_DELAY, MAX_REQUEST_DELAY) *)
| RateLimitBackoff (attempt : nat)  (* base * 2^attempt + uniform(0, 1) *)
| Backoff (attempt : nat)           (* base * 2^attempt *)
| Reinitialize (attempt : nat).     (* [self._initialize()] after a 403 *)

Definition BASE_URL : string := "https://www.shipspotting.com".
Definition test_url : string := BASE_URL ++ "/photos/gallery?imo=9169031".

(** [response.raise_for_status()]: raises on 4xx and 5xx. *)
Definition raises_for_status (s : Z) : bool := (400 <=? s) && (s <? 600).

(** [_initialize], from request number [k]: [true] when it returns, [false]
    when it raises; with the number of the next request. *)
Definition initialize (rm : remote) (k : nat) : bool * nat :=
  match rm k BASE_URL with
  | TransportError => (false, S k)
  | Resp s =>
      if raises_for_status s then (false, S k) else
      match rm (S k) test_url with
      | TransportError => (false, S (S k))
      | Resp t =>
          if t =? 403 then
            match rm (S (S k)) test_url with
            | TransportError => (false, S (S (S k)))
            | Resp _ => (true, S (S (S k)))
            end
          else (true, S (S k))
      end
  end.

(** The [for attempt in range(MAX_RETRIES)] loop of [get]: the response
    returned ([None] for the [None] of Python), the delays, and the number
    of the next request. *)
Fixpoint get_loop (max_retries : nat) (rm : remote) (url : string)
    (attempts : list nat) (k : nat) : option Z * list event * nat :=
  match attempts with
  | [] => (None, [], k)
  | attempt :: rest =>
      (* the [except Exception] branch, entered with next request [k'] *)
      let on_exception (k' : nat) :=
        if (attempt <? max_retries - 1)%nat then
          let '(r, ev, k'') := get_loop max_retries rm url rest k' in
          (r, Backoff attempt :: ev, k'')
        else (None, [], k') in
      match rm k url with
      | TransportError => on_exception (S k)
      | Resp s =>
          if s =? 429 then
            let '(r, ev, k'') := get_loop max_retries rm url rest (S k) in
            (r, RateLimitBackoff attempt :: ev, k'')
          else if s =? 403 then
            let '(ok, k') := initialize rm (S k) in
            if ok then
              let '(r, ev, k'') := get_loop max_retries rm url rest k' in
              (r, Reinitialize attempt :: ev, k'')
            else
              let '(r, ev, k'') := on_exception k' in
              (r, Reinitialize attempt :: ev, k'')
          else if (500 <=? s) && (attempt <? max_retries - 1)%nat then
            let '(r, ev, k'') := get_loop max_retries rm url rest (S k) in
            (r, Backoff attempt :: ev, k'')
          else (Some s, [], S k)
      end
  end.

Definition MAX_RETRIES : nat := 3.

(** [CloudscraperSession.get], its first request being number [k]. *)
Definition get (max_retries : nat) (rm : remote) (url : string) (k : nat)
    : option Z * list event * nat :=
  let '(r, ev, k') := get_loop max_retries rm url (seq 0 max_retries) k in
  (r, RandomDelay :: ev, k').

Definition event_attempt (e : event) : option nat :=
  match e with
  | RandomDelay => None
  | RateLimitBackoff a | Backoff a | Reinitialize a => Some a
  end.

Close Scope Z_scope.
End Session.

(** ** Gallery discovery ([PhotoFinder] in shipspotting_scraper.py) *)
Module Finder.
Open Scope Z_scope.

(** A gallery page as BeautifulSoup gives it to the code: the [href] of
    each [a] tag ([None] for a tag without one) and [soup.get_text()]. *)
Record html := mkHtml {
  a_hrefs : list (option string);
  page_text : string
}.

(** The pattern [/photos/(\d+)] tried at the start of [l]; [\d+] is greedy
    and the pattern ends after it. *)
Definition photos_match_at (l : list ascii) : option string :=
  let lit := list_ascii_of_string "/photos/" in
  if String.prefix "/photos/" (string_of_list_ascii l) then
    match take_while is_ascii_digit (skipn (List.length lit) l) with
    | [] => None
    | d => Some (string_of_list_ascii d)
    end
  else None.

(** [re.search(r"/photos/(\d+)", href).group(1)] *)
Fixpoint photos_search (l : list ascii) : option string :=
  match photos_match_at l with
  | Some g => Some g
  | None => match l with [] => None | _ :: r => photos_search r end
  end.

(** One link of the loop of [extract_photo_ids]; the [find_all] filter and
    the inner [re.search] use the same pattern. *)
Definition extract_step (photo_ids : list string) (href : option string)
    : list string :=
  match href with
  | None => photo_ids
  | Some h =>
      match photos_search (list_ascii_of_string h) with
      | Some photo_id =>
          if str_isdigit photo_id && (4 <=? String.length photo_id)%nat
          then set_add photo_id photo_ids else photo_ids
      | None => photo_ids
      end
  end.

(** [PhotoFinder.extract_photo_ids] *)
Definition extract_photo_ids (h : html) : list string :=
  fold_left extract_step (a_hrefs h) [].

(** The three count patterns of [get_photo_count], as token sequences
    matched with [re.I]. [TDigits] is the group [(\d+)]. The greedy [\d+]
    and [\s+] are always followed by a token that cannot start with a
    character of their class, so they never need to give characters back;
    the optional letter backtracks. *)
Inductive tok :=
| TDigits
| TSpaces
| TWord (w : string)
| TOpt (c : ascii).

Fixpoint prefix_ci (w : list ascii) (l : list ascii) : bool :=
  match w, l with
  | [], _ => true
  | c :: w', x :: l' => Ascii.eqb (lower_char x) c && prefix_ci w' l'
  | _ :: _, [] => false
  end.

(** Match at the start of [l]; the result is the captured digits. *)
Fixpoint match_toks (ts : list tok) (l : list ascii) : option (list ascii) :=
  match ts with
  | [] => Some []
  | TDigits :: r =>
      match take_while is_ascii_digit l with
      | [] => None
      | d => match match_toks r (drop_while is_ascii_digit l) with
             | Some _ => Some d
             | None => None
             end
      end
  | TSpaces :: r =>
      match take_while py_isspace l with
      | [] => None
      | _ => match_toks r (drop_while py_isspace l)
      end
  | TWord w :: r =>
      let w' := list_ascii_of_string w in
      if prefix_ci w' l then match_toks r (skipn (List.length w') l) else None
  | TOpt c :: r =>
      match l with
      | x :: l' =>
          if Ascii.eqb (lower_char x) c then
            match match_toks r l' with
            | Some g => Some g
            | None => match_toks r l
            end
          else match_toks r l
      | [] => match_toks r l
      end
  end.

(** [pattern.search(text)] *)
Fixpoint search_toks (ts : list tok) (l : list ascii) : option (list ascii) :=
  match match_toks ts l with
  | Some g => Some g
  | None => match l with [] => None | _ :: r => search_toks ts r end
  end.

(** [(\d+)\s+photos?\s+found], [found\s+(\d+)\s+photo],
    [(\d+)\s+results?\s+found] *)
Definition count_patterns : list (list tok) :=
  [ [TDigits; TSpaces; TWord "photo"; TOpt "s"%char; TSpaces; TWord "found"];
    [TWord "found"; TSpaces; TDigits; TSpaces; TWord "photo"];
    [TDigits; TSpaces; TWord "result"; TOpt "s"%char; TSpaces; TWord "found"] ].

(** [int(...)] of a digit string *)
Definition digits_value (d : list ascii) : Z :=
  fold_left (fun acc c => 10 * acc + Z.of_nat (nat_of_ascii c - 48)) d 0.

(** [PhotoFinder.get_photo_count]: the first pattern that matches wins. *)
Definition get_photo_count (h : html) : Z :=
  let text := list_ascii_of_string (page_text h) in
  let fix go (ps : list (list tok)) :=
    match ps with
    | [] => -1
    | p :: r => match search_toks p text with
                | Some d => digits_value d
                | None => go r
                end
    end in
  go count_patterns.

(** The gallery pages as the session delivers them for one vessel: page
    [page] in sort order [sort_by], or [None] when [session.get] gave
    [None] or a status other than 200. Each (sort order, page) pair is
    requested at most once by [find_photos]. *)
Definition gallery := string -> nat -> option html.

(** The results of pages 2.. read in submission order, with the early
    [break] once [target_count] identifiers are collected. The pages after
    the break have been fetched all the same: the executor runs every
    submitted task before the [with] block ends. *)
Fixpoint collect_pages (all_photo_ids : list string) (target_count : Z)
    (results : list (list string)) : list string :=
  match results with
  | [] => all_photo_ids
  | page_ids :: r =>
      let all' := set_update all_photo_ids page_ids in
      if target_count <=? Z.of_nat (List.length all') then all'
      else collect_pages all' target_count r
  end.

(** [fetch_page] *)
Definition fetch_page (g : gallery) (sort_by : string) (page_num : nat)
    : list string :=
  match g sort_by page_num with
  | Some h => extract_photo_ids h
  | None => []
  end.

(** [pages_needed] *)
Definition pages_needed (page1_len : nat) (total_photos max_pages target_count : Z)
    : Z :=
  if (12 <=? page1_len)%nat then
    if total_photos <=? 0 then Z.min max_pages 5
    else
      let photos_per_page := 12 in
      let photos_to_fetch := Z.min target_count total_photos in
      Z.min max_pages ((photos_to_fetch + photos_per_page - 1) / photos_per_page)
  else 1.

(** [PhotoFinder.search_gallery_pages_parallel]: the identifiers and the
    total it returns, with the page numbers it requests. *)
Definition search_gallery_pages_parallel (g : gallery) (sort_by : string)
    (max_pages target_count : Z) : (list string * Z) * list nat :=
  match g sort_by 1%nat with
  | None => (([], -1), [1%nat])
  | Some h =>
      let total_photos := get_photo_count h in
      let page1_ids := extract_photo_ids h in
      let all_photo_ids := set_update [] page1_ids in
      let pn := pages_needed (List.length page1_ids) total_photos max_pages
                             target_count in
      if pn <=? 1 then
        ((all_photo_ids,
          if 0 <? total_photos then total_photos
          else Z.of_nat (List.length all_photo_ids)), [1%nat])
      else
        let pages := seq 2 (Z.to_nat pn - 1) in
        let all' := collect_pages all_photo_ids target_count
                                  (map (fetch_page g sort_by) pages) in
        ((all', if 0 <? total_photos then total_photos
                else Z.of_nat (List.length all')), 1%nat :: pages)
  end.

(** The settings [find_photos] reads. *)
Record config := mkConfig {
  max_photos_per_imo : nat;
  max_gallery_pages : Z
}.

Definition default_config : config := mkConfig 40 10.

(** The loop over the alternate sort orders of [find_photos]. *)
Fixpoint alternate_sorts (g : gallery) (sorts : list string) (missing_count : Z)
    (goal : Z) (all_photo_ids : list string) : list string :=
  match sorts with
  | [] => all_photo_ids
  | sort_order :: r =>
      let extra_ids := fst (fst (search_gallery_pages_parallel g sort_order 3
                                   missing_count)) in
      let new_ids := set_diff extra_ids all_photo_ids in
      match new_ids with
      | [] => alternate_sorts g r missing_count goal all_photo_ids
      | _ =>
          let all' := set_update all_photo_ids new_ids in
          if goal <=? Z.of_nat (List.length all') then all'
          else alternate_sorts g r missing_count goal all'
      end
  end.

(** [PhotoFinder.find_photos] *)
Definition find_photos (cfg : config) (g : gallery) : list string * Z :=
  let max_photos := Z.of_nat (max_photos_per_imo cfg) in
  let '((photo_ids, total_photos), _) :=
    search_gallery_pages_parallel g "newest" (max_gallery_pages cfg) max_photos in
  let all_photo_ids := set_update [] photo_ids in
  if total_photos =? 0 then ([], 0) else
  let goal := Z.min total_photos max_photos in
  let all' :=
    if (0 <? total_photos) && (Z.of_nat (List.length all_photo_ids) <? goal)
    then alternate_sorts g ["oldest"; "popular"]
           (goal - Z.of_nat (List.length all_photo_ids)) goal all_photo_ids
    else all_photo_ids in
  let photo_list := firstn (max_photos_per_imo cfg) all' in
  (photo_list, if 0 <? total_photos then total_photos
               else Z.of_nat (List.length photo_list)).

Close Scope Z_scope.

End Finder.

(** ** Image fetch ([GCSImageUploader] in shipspotting_scraper.py) *)
Module Uploader.
Open Scope Z_scope.

Definition BASE_URL : string := "https://www.shipspotting.com".

(** [GCSImageUploader.construct_image_url]: the primary URL from the
    reversed last three characters, then the two flat ones. *)
Definition construct_image_url (photo_id : string) : list string :=
  let n := String.length photo_id in
  let primary :=
    if (3 <=? n)%nat then
      let last_three := list_ascii_of_string (substring (n - 3) 3 photo_id) in
      let path :=
        match rev last_three with
        | [a; b; c] => String a (String "/" (String b (String "/" (String c ""))))
        | _ => ""
        end in
      [BASE_URL ++ "/photos/big/" ++ path ++ "/" ++ photo_id ++ ".jpg"]
    else [] in
  primary ++ [BASE_URL ++ "/photos/big/" ++ photo_id ++ ".jpg";
              BASE_URL ++ "/photos/large/" ++ photo_id ++ ".jpg"].

(** What [await client.get(img_url, timeout=10)] gives: a response with its
    status and its [content-type] header ("" when absent), or an
    exception. *)
Inductive download :=
| DResp (status : Z) (content_type : string)
| DError.

(** [needle in hay] on strings *)
Fixpoint str_contains (needle hay : string) : bool :=
  String.prefix needle hay ||
  match hay with
  | EmptyString => false
  | String _ hay' => str_contains needle hay'
  end.

(** The loop of [download_and_upload_image] over the candidate URLs: the
    result, with the URLs requested. [upload_ok] is what
    [gcs_manager.upload_image] returns (it catches its own exceptions). *)
Fixpoint try_urls (client : string -> download) (upload_ok : bool)
    (urls : list string) : bool * list string :=
  match urls with
  | [] => (false, [])
  | img_url :: r =>
      let next := let '(res, tried) := try_urls client upload_ok r in
                  (res, img_url :: tried) in
      match client img_url with
      | DError => next
      | DResp status content_type =>
          if status =? 200 then
            if negb (str_contains "image" (str_lower content_type)) then next
            else (upload_ok, [img_url])
          else next
      end
  end.

(** [GCSImageUploader.download_and_upload_image] *)
Definition download_and_upload_image (client : string -> download)
    (upload_ok : bool) (photo_id : string) : bool * list string :=
  try_urls client upload_ok (construct_image_url photo_id).

Close Scope Z_scope.
End Uploader.

(** ** Blob names and image count ([GCSManager] in gcs_helper.py) *)
Module GcsBlobs.
Import Gcs.

(** [self.photo_base] and [self.json_base] of [GCSManager.__init__]. *)
Definition photo_base : string :=
  "reidentification/bronze/raw_crops/ship_spotting".
Definition json_base : string :=
  "reidentification/bronze/json_lables/ship_spotting".

(** The folder of a vessel's images, [f"{self.photo_base}/IMO_{imo}/"], the
    prefix [get_imo_image_count] lists. *)
Definition imo_prefix (imo : string) : string :=
  photo_base ++ "/IMO_" ++ imo ++ "/".

(** [image_path] and [metadata_path] of [upload_image] and [upload_batch]. *)
Definition image_path (imo photo_id : string) : string :=
  photo_base ++ "/IMO_" ++ imo ++ "/" ++ photo_id ++ ".jpg".
Definition metadata_path (imo photo_id : string) : string :=
  json_base ++ "/IMO_" ++ imo ++ "/" ++ photo_id ++ ".json".

(** The bucket as the set of its blob names; an upload to an existing name
    overwrites the blob. *)
Definition bucket := list string.

(** The writes of a successful [upload_image]: the image, then the
    metadata JSON when [metadata] is truthy. *)
Definition upload_image_blobs (imo photo_id : string) (has_metadata : bool)
    (b : bucket) : bucket :=
  let b' := set_add (image_path imo photo_id) b in
  if has_metadata then set_add (metadata_path imo photo_id) b' else b'.

(** [s.endswith(suffix)] *)
Definition str_endswith (suffix s : string) : bool :=
  String.prefix (string_of_list_ascii (rev (list_ascii_of_string suffix)))
                (string_of_list_ascii (rev (list_ascii_of_string s))).

(** [self.client.list_blobs(self.bucket_name, prefix=prefix)]: the blobs
    whose name starts with [prefix]. *)
Definition list_blobs (b : bucket) (prefix : string) : list string :=
  filter (String.prefix prefix) b.

(** [GCSManager.get_imo_image_count] *)
Definition get_imo_image_count (b : bucket) (imo : string) : nat :=
  List.length (filter (str_endswith ".jpg") (list_blobs b (imo_prefix imo))).

(** [GCSManager.upload_batch]: [oks] tells, image by image, whether both
    of its uploads succeeded (a failure is caught and logged); the result
    is the number of images stored. *)
Definition upload_batch (imo : string) (oks : list bool) (st : state)
    : nat * state :=
  let uploaded := List.length (filter (fun ok : bool => ok) oks) in
  if (0 <? uploaded)%nat
  then (uploaded, mkState (persisted st) (cached_imos st)
                          (set_add imo (new_imos st)))
  else (uploaded, st).

End GcsBlobs.

(** ** Mode selection (imo_extractor.py) *)
Module ExtractorModes.
Import Extractor.

(** [choose_mode_interactively(default="hardcoded")]; [answer] is what
    [input()] returns, [None] for the [EOFError] of a non-interactive
    run. *)
Definition choose_mode_interactively (answer : option string) : string :=
  let choice := match answer with Some a => str_strip a | None => "" end in
  if String.eqb choice "1" then "api"
  else if String.eqb choice "2" || String.eqb choice "" then "hardcoded"
  else "hardcoded".

(** [resolve_mode(cli_mode)] with the value of [SCRAPER_MODE] ([None] when
    unset); an empty string is false in the [if] tests. *)
Definition resolve_mode (cli_mode env_mode answer : option string) : string :=
  match cli_mode with
  | Some m => if negb (String.eqb m "") then str_lower (str_strip m)
              else match env_mode with
                   | Some e => if negb (String.eqb e "") then str_lower (str_strip e)
                               else choose_mode_interactively answer
                   | None => choose_mode_interactively answer
                   end
  | None => match env_mode with
            | Some e => if negb (String.eqb e "") then str_lower (str_strip e)
                        else choose_mode_interactively answer
            | None => choose_mode_interactively answer
            end
  end.

(** [extract_haifa_imos()] without a mode, as [main] calls it:
    [resolve_mode(cli_mode=None)], then [extract_haifa_imos] on the mode. *)
Definition extract_haifa_imos_default (env_mode answer : option string)
    (vessel_imos : list (option string)) : list string :=
  extract_haifa_imos (resolve_mode None env_mode answer) vessel_imos.

End ExtractorModes.

(** ** Batch upload of one vessel ([GCSImageUploader.upload_batch]) *)
Module UploaderBatch.
Import Uploader.

(** [download_and_upload_image] with the index state of the manager it
    calls: [gcs_manager.upload_image] runs only on an accepted response and
    its result is returned, so the state after the call is the one
    [Gcs.upload_image] leaves with that result ([Gcs.upload_image false]
    leaves the state as it is). [upload_ok] tells, by photo, whether the
    storage upload succeeds. *)
Definition download_and_upload_image_st (client : string -> download)
    (upload_ok : string -> bool) (imo photo_id : string) (st : Gcs.state)
    : bool * Gcs.state :=
  let res := fst (download_and_upload_image client (upload_ok photo_id) photo_id) in
  (res, snd (Gcs.upload_image res imo st)).

(** [GCSImageUploader.upload_batch]: one task per photo; the tasks are
    taken here in submission order ([as_completed] gives them in completion
    order, which changes neither the count nor the index state). *)
Fixpoint upload_batch (client : string -> download) (upload_ok : string -> bool)
    (imo : string) (photo_ids : list string) (st : Gcs.state)
    : nat * Gcs.state :=
  match photo_ids with
  | [] => (0, st)
  | pid :: r =>
      let '(res, st1) := download_and_upload_image_st client upload_ok imo pid st in
      let '(n, st2) := upload_batch client upload_ok imo r st1 in
      ((if res then S n else n), st2)
  end.

End UploaderBatch.

(** ** Orchestration ([ShipSpottingScraper], [BatchProcessor] in
    shipspotting_scraper.py) *)
Module Pipeline.
Import Finder.

(** [ScrapeResult], without [vessel_name], [time_taken] and [errors]. *)
Record scrape_result := mkResult {
  sr_imo : string;
  downloaded : nat;
  found : nat;
  total_available : Z
}.

(** [ShipSpottingScraper.scrape_imo_async] on the vessel's gallery. *)
Definition scrape_imo_async (cfg : config) (g : gallery)
    (client : string -> Uploader.download) (upload_ok : string -> bool)
    (imo : string) (st : Gcs.state) : scrape_result * Gcs.state :=
  let '(photo_ids, total_photos) := find_photos cfg g in
  match photo_ids with
  | [] => (mkResult imo 0 0 total_photos, st)
  | _ =>
      let '(uploaded, st') :=
        UploaderBatch.upload_batch client upload_ok imo photo_ids st in
      (mkResult imo uploaded (List.length photo_ids) total_photos, st')
  end.





(** [range(0, n, step)] for [step > 0]. *)
Definition batch_starts (n step : nat) : list nat :=
  map (fun i => i * step) (seq 0 ((n + step - 1) / step)).

(** [imo_list[batch_start:batch_end]] *)
Definition batch_slice (imo_list : list string) (batch_size batch_start : nat)
    : list string :=
  firstn (Nat.min (batch_start + batch_size) (List.length imo_list) - batch_start)
         (skipn batch_start imo_list).



End Pipeline.

(** * Claim statements and test inputs *)

Module GcsSpec.
Import Gcs.

(** C3 as stated: the persisted set never loses an entry in a flush. *)
Definition flush_never_removes : Prop :=
  forall (st : state) (r w : bool),
    incl (persisted_set st) (persisted_set (update_imo_gallery_json r w st)).

End GcsSpec.

Module RebuildSpec.
Import Gcs.

(** The folder names the spec calls conforming: [IMO_] followed by a
    7-digit identifier (the name [upload_image] writes), or the 7-digit
    identifier alone; their identifier. *)
Definition conforming_folder (name : string) : option string :=
  if valid_imo name then Some name
  else if String.prefix "IMO_" name
          && valid_imo (substring 4 (String.length name - 4) name)
  then Some (substring 4 (String.length name - 4) name) else None.

(** C9 as stated: on a listing whose folders all conform, [rebuild]
    returns exactly their identifiers. *)
Definition rebuild_returns_conforming : Prop :=
  forall (w : bool) (listing : list (list string)) (st : state),
    forallb (fun p => match conforming_folder (split_slash_last (rstrip_slash p)) with
                      | Some _ => true
                      | None => false
                      end) (concat listing) = true ->
    forall x, In x (fst (rebuild_imo_gallery_json w listing st)) <->
      exists p, In p (concat listing) /\
        conforming_folder (split_slash_last (rstrip_slash p)) = Some x.

(** A listing of one page with one folder, that of vessel 9169031 as
    [upload_image] names it. *)
Definition one_vessel_listing : list (list string) :=
  [[GcsBlobs.photo_base ++ "/IMO_9169031/"]].

End RebuildSpec.

Module ExtractorSpec.
Import Extractor.

(** C4 as stated: every identifier of the identifier source is 7 digits. *)
Definition source_ids_valid : Prop :=
  forall (mode : string) (vessel_imos : list (option string)) (x : string),
    In x (extract_haifa_imos mode vessel_imos) -> valid_imo x = true.

End ExtractorSpec.

Module SessionSpec.
Import Session.

(** What a run of the retry loop over the attempts [lo .. hi-1] ensures:
    every delay belongs to one of these attempts, a backoff without jitter
    happens only before the last attempt, and a response that is returned
    is no 429 nor 403 and, when it is a 5xx, every attempt before the
    last one has already backed off or re-initialised. *)
Definition loop_ok (max_retries lo hi : nat) (res : option Z * list event * nat)
    : Prop :=
  let '(r, ev, _) := res in
  (forall e, In e ev -> exists a, event_attempt e = Some a /\ lo <= a < hi) /\
  (forall a, In (Backoff a) ev -> a < max_retries - 1) /\
  (forall s, r = Some s -> (s <> 429 /\ s <> 403)%Z /\
     ((500 <= s)%Z -> forall a, lo <= a -> a < max_retries - 1 ->
        exists e, In e ev /\ event_attempt e = Some a)).

(** C5 as stated: a response that [get] returns is never a failure class
    (429, 403, 5xx); running out of attempts gives [None]. *)
Definition get_returns_only_success : Prop :=
  forall (rm : remote) (url : string) (k : nat) (s : Z),
    fst (fst (get MAX_RETRIES rm url k)) = Some s ->
    (s <> 429 /\ s <> 403 /\ s < 500)%Z.

(** C5, amended, attempt by attempt: [retry_policy mr rm url a n j res]
    when [n] attempts are left, the next one being attempt [a] and its
    request number [j], and [res] is what the rest of [get] gives: the
    response returned, the delays and the number of the next request.
    Attempt [a] comes before the last one when [S a < mr]. *)
Inductive retry_policy (mr : nat) (rm : remote) (url : string)
    : nat -> nat -> nat -> option Z * list event * nat -> Prop :=
(* every attempt used up: None *)
| RP_exhausted a j : retry_policy mr rm url a 0 j (None, [], j)
(* 429: a wait of base * 2^a with jitter, then the next attempt *)
| RP_rate_limited a n j r ev j' :
    rm j url = Resp 429 ->
    retry_policy mr rm url (S a) n (S j) (r, ev, j') ->
    retry_policy mr rm url a (S n) j (r, RateLimitBackoff a :: ev, j')
(* 403: the session is re-created, and no wait follows *)
| RP_reinit a n j j1 r ev j' :
    rm j url = Resp 403 -> initialize rm (S j) = (true, j1) ->
    retry_policy mr rm url (S a) n j1 (r, ev, j') ->
    retry_policy mr rm url a (S n) j (r, Reinitialize a :: ev, j')
(* 403 and the re-creation raises: handled as a transport error *)
| RP_reinit_fails a n j j1 r ev j' :
    rm j url = Resp 403 -> initialize rm (S j) = (false, j1) -> S a < mr ->
    retry_policy mr rm url (S a) n j1 (r, ev, j') ->
    retry_policy mr rm url a (S n) j (r, Reinitialize a :: Backoff a :: ev, j')
| RP_reinit_fails_last a n j j1 :
    rm j url = Resp 403 -> initialize rm (S j) = (false, j1) -> mr <= S a ->
    retry_policy mr rm url a (S n) j (None, [Reinitialize a], j1)
(* 5xx before the last attempt: a wait of base * 2^a without jitter *)
| RP_server_error a n j s r ev j' :
    rm j url = Resp s -> (500 <= s)%Z -> S a < mr ->
    retry_policy mr rm url (S a) n (S j) (r, ev, j') ->
    retry_policy mr rm url a (S n) j (r, Backoff a :: ev, j')
(* 5xx on the last attempt: the response is returned *)
| RP_server_error_last a n j s :
    rm j url = Resp s -> (500 <= s)%Z -> mr <= S a ->
    retry_policy mr rm url a (S n) j (Some s, [], S j)
(* transport error before the last attempt: a wait without jitter *)
| RP_transport a n j r ev j' :
    rm j url = TransportError -> S a < mr ->
    retry_policy mr rm url (S a) n (S j) (r, ev, j') ->
    retry_policy mr rm url a (S n) j (r, Backoff a :: ev, j')
(* transport error on the last attempt: None *)
| RP_transport_last a n j :
    rm j url = TransportError -> mr <= S a ->
    retry_policy mr rm url a (S n) j (None, [], S j)
(* any other status: returned at once *)
| RP_returned a n j s :
    rm j url = Resp s -> s <> 429%Z -> s <> 403%Z -> (s < 500)%Z ->
    retry_policy mr rm url a (S n) j (Some s, [], S j).

Definition always_500 : remote := fun _ _ => Resp 500.

Definition first_403_then_200 : remote :=
  fun j _ => if (j =? 0)%nat then Resp 403 else Resp 200.

End SessionSpec.

Module FinderSpec.
Import Finder.

(** An identifier as C10 describes it: decimal digits only, at least 4. *)
Definition digit_id (x : string) : Prop :=
  Forall (fun c => is_ascii_digit c = true) (list_ascii_of_string x) /\
  4 <= String.length x.

(** C7 as stated: with a full first page and no total found, the number of
    pages fetched is [max_pages]. *)
Definition unknown_total_fetches_max_pages : Prop :=
  forall (g : gallery) (sort_by : string) (max_pages target_count : Z) (h : html),
    g sort_by 1%nat = Some h ->
    (12 <= List.length (extract_photo_ids h))%nat ->
    get_photo_count h = (-1)%Z ->
    List.length (snd (search_gallery_pages_parallel g sort_by max_pages
                                                    target_count))
    = Z.to_nat max_pages.

(** A full gallery page without any count text. *)
Definition full_page : html :=
  mkHtml (map (fun s => Some ("/photos/" ++ s))
              ["1000"; "1001"; "1002"; "1003"; "1004"; "1005";
               "1006"; "1007"; "1008"; "1009"; "1010"; "1011"]) "".

Definition full_page_gallery : gallery := fun _ _ => Some full_page.

End FinderSpec.

Module UploaderSpec.
Import Uploader.

(** The acceptance test the spec states: HTTP 200 and a content type that
    indicates an image, the latter as the code tests it ([image] occurs in
    the lower-cased [content-type]). *)
Definition accepts (client : string -> download) (u : string) : bool :=
  match client u with
  | DResp status content_type =>
      (status =? 200)%Z && str_contains "image" (str_lower content_type)
  | DError => false
  end.

End UploaderSpec.

(** * Statements about the rest of the code *)

Module ExtraSpec.
Import Gcs GcsBlobs.

(** Code-point order of strings, the order of [sorted]. *)
Definition str_le (a b : string) : Prop := String.leb a b = true.

(** A string without a slash, as a 7-digit identifier is. *)
Definition no_slash (s : string) : bool :=
  forallb (fun c => negb (Ascii.eqb c "/"%char)) (list_ascii_of_string s).

(** The bucket after a sequence of successful [upload_image] calls
    (vessel, photo, metadata given), starting from an empty bucket. *)
Definition bucket_after (uploads : list (string * string * bool)) : bucket :=
  fold_left (fun b '(i, p, m) => upload_image_blobs i p m b) uploads [].

(** The index operations that neither reload nor replace the cache. *)
Definition keeps_cache (o : op) : bool :=
  match o with
  | OUpload _ _ | OCheckExisting _ | OCheckExists _ _ => true
  | OTestConnection _ | ORebuild _ _ => false
  end.

(** When [extract_haifa_imos()] (no mode) takes the API: [SCRAPER_MODE] set
    and non-empty, stripped and lower-cased, is "api"; otherwise the
    interactive answer, stripped, is "1". *)
Definition uses_api (env_mode answer : option string) : bool :=
  let by_answer := match answer with
                   | Some a => String.eqb (str_strip a) "1"
                   | None => false
                   end in
  match env_mode with
  | Some e => if negb (String.eqb e "") then String.eqb (str_lower (str_strip e)) "api"
              else by_answer
  | None => by_answer
  end.



End ExtraSpec.

(** * Proofs *)

(** ** Set lemmas *)

Lemma set_mem_In (x : string) (l : list string) :
  set_mem x l = true <-> In x l.
Proof.
  unfold set_mem. rewrite existsb_exists. split.
  - intros [y [Hy Heq]]. apply String.eqb_eq in Heq. subst. exact Hy.
  - intros H. exists x. split; [exact H | apply String.eqb_refl].
Qed.

Lemma In_set_add (x y : string) (s : list string) :
  In x (set_add y s) <-> x = y \/ In x s.
Proof.
  unfold set_add. destruct (set_mem y s) eqn:E.
  - apply set_mem_In in E. split; [tauto|]. intros [->|H]; auto.
  - rewrite in_app_iff. simpl. split; intros [H|H]; intuition.
Qed.

Lemma In_set_update (x : string) (s xs : list string) :
  In x (set_update s xs) <-> In x s \/ In x xs.
Proof.
  unfold set_update. revert s. induction xs as [|y r IH]; intros s; simpl.
  - tauto.
  - rewrite IH, In_set_add. intuition.
Qed.

Lemma NoDup_set_add (y : string) (s : list string) :
  NoDup s -> NoDup (set_add y s).
Proof.
  intros H. unfold set_add. destruct (set_mem y s) eqn:E; [exact H|].
  apply NoDup_app; auto using NoDup_cons, NoDup_nil.
  intros z Hz [->|[]]. assert (set_mem z s = true) by (apply set_mem_In; exact Hz).
  congruence.
Qed.

Lemma NoDup_set_update (s xs : list string) :
  NoDup s -> NoDup (set_update s xs).
Proof.
  unfold set_update. revert s. induction xs as [|y r IH]; intros s H; simpl.
  - exact H.
  - apply IH, NoDup_set_add, H.
Qed.

Lemma str_insert_perm (x : string) (l : list string) :
  Permutation (str_insert x l) (x :: l).
Proof.
  induction l as [|y r IH]; simpl; [auto|].
  destruct (String.leb x y); [auto|].
  eapply perm_trans; [apply perm_skip, IH | apply perm_swap].
Qed.

Lemma str_sort_perm (l : list string) : Permutation (str_sort l) l.
Proof.
  induction l as [|x r IH]; simpl; [auto|].
  eapply perm_trans; [apply str_insert_perm | apply perm_skip, IH].
Qed.

Lemma In_str_sort (x : string) (l : list string) :
  In x (str_sort l) <-> In x l.
Proof.
  split; apply Permutation_in; [|apply Permutation_sym]; apply str_sort_perm.
Qed.

(** ** Dedup index *)
Module GcsProofs.
Import Gcs GcsSpec.

Lemma In_load_imo_numbers (x : string) (xs : list string) :
  In x (load_imo_json true (Some (DImoNumbers xs))) <->
  In x xs /\ valid_imo x = true.
Proof.
  unfold load_imo_json, set_of. simpl.
  rewrite filter_In, In_set_update, filter_In. simpl. intuition.
Qed.

Lemma load_imo_json_valid (r : bool) (p : option doc) (x : string) :
  In x (load_imo_json r p) -> valid_imo x = true.
Proof.
  unfold load_imo_json. destruct r; simpl; [|intros []].
  destruct p; [|intros []]. rewrite filter_In. tauto.
Qed.

(** Saving and reloading gives back the valid identifiers saved. *)
Lemma In_persisted_after_save (x : string) (imos : list string) (p : option doc) :
  In x (load_imo_json true (save_imo_json true imos p)) <->
  In x imos /\ valid_imo x = true.
Proof.
  simpl save_imo_json. rewrite In_load_imo_numbers, In_str_sort, filter_In.
  tauto.
Qed.

Lemma step_keeps_new (o : op) (st : state) (x : string) :
  In x (new_imos st) -> In x (new_imos (step o st)).
Proof.
  destruct o; simpl; intros H.
  - unfold upload_image. destruct upload_ok; simpl; [|exact H].
    apply In_set_add. right. exact H.
  - unfold check_existing_imos. destruct (cached_imos st); exact H.
  - unfold check_imo_exists. destruct (cached_imos st); exact H.
  - exact H.
  - exact H.
Qed.

Lemma run_keeps_new (ops : list op) (st : state) (x : string) :
  In x (new_imos st) -> In x (new_imos (run ops st)).
Proof.
  unfold run. revert st. induction ops as [|o r IH]; intros st H; simpl.
  - exact H.
  - apply IH, step_keeps_new, H.
Qed.

Lemma run_upload_new (pre post : list op) (st : state) (imo : string) :
  In imo (new_imos (run (pre ++ OUpload true imo :: post) st)).
Proof.
  unfold run. rewrite fold_left_app. simpl.
  apply (run_keeps_new post). simpl. apply In_set_add. left. reflexivity.
Qed.

(** C2: a valid 7-digit identifier with a successful [upload_image] in the
    run is reported present by [check_imo_exists] after the end-of-run
    [update_imo_gallery_json], whatever the other index operations of the
    run and whether the reload or the save of the flush fails. *)
Theorem flush_then_check_imo_exists (st0 : state) (pre post : list op)
    (imo : string) (r w r' : bool) (Hvalid : valid_imo imo = true) :
  fst (check_imo_exists r' imo
         (update_imo_gallery_json r w
            (run (pre ++ OUpload true imo :: post) st0))) = true.
Proof.
  pose proof (run_upload_new pre post st0 imo) as Hin.
  remember (run (pre ++ OUpload true imo :: post) st0) as st eqn:Est.
  clear Est.
  assert (Hf : In imo (filter valid_imo (new_imos st)))
    by (apply filter_In; split; assumption).
  unfold update_imo_gallery_json.
  destruct (new_imos st) as [|n ns] eqn:E; [destruct Hin|].
  cbv [fst check_imo_exists cached_imos].
  apply set_mem_In, In_set_update. right. exact Hf.
Qed.

Lemma flush_then_check_imo_exists_witness :
  valid_imo "9169031" = true /\
  fst (check_imo_exists true "9169031"
         (update_imo_gallery_json true true
            (run ([] ++ OUpload true "9169031" :: [])
                 (mkState None None [])))) = true.
Proof.
  split; [reflexivity|].
  apply (flush_then_check_imo_exists (mkState None None []) [] [] "9169031"
           true true true); reflexivity.
Defined.

(** C3, counterexample: when the reload of the flush raises, the code
    continues with the empty set and overwrites the index with the pending
    identifiers alone. *)
Lemma flush_drops_entries_on_read_error : ~ flush_never_removes.
Proof.
  unfold flush_never_removes. intros H.
  specialize (H (mkState (Some (DImoNumbers ["9169031"])) None ["9289972"])
                false true "9169031").
  assert (Hb : In "9169031" (persisted_set
                 (mkState (Some (DImoNumbers ["9169031"])) None ["9289972"])))
    by (vm_compute; left; reflexivity).
  apply H in Hb. vm_compute in Hb. destruct Hb as [Hb|[]]. discriminate Hb.
Qed.

(** C3, amended: when the reload succeeds the persisted set after the flush
    contains the one before; every valid pending identifier is persisted
    when the save succeeds; and when the reload raises, a successful save
    replaces the persisted set by the valid pending identifiers. *)
Theorem flush_union_when_reload_succeeds (st : state) :
  (forall w, incl (persisted_set st)
                  (persisted_set (update_imo_gallery_json true w st))) /\
  (forall r x, In x (filter valid_imo (new_imos st)) ->
               In x (persisted_set (update_imo_gallery_json r true st))) /\
  (new_imos st <> [] -> forall x,
      In x (persisted_set (update_imo_gallery_json false true st)) <->
      In x (filter valid_imo (new_imos st))).
Proof.
  unfold persisted_set, update_imo_gallery_json.
  destruct (new_imos st) as [|n ns] eqn:E.
  - split; [|split].
    + intros w. apply incl_refl.
    + intros r x [].
    + intros Hne. contradiction.
  - split; [|split].
    + intros w x Hx. destruct w; cbn [persisted].
      * apply In_persisted_after_save. split.
        -- apply In_set_update. left. exact Hx.
        -- exact (load_imo_json_valid _ _ _ Hx).
      * exact Hx.
    + intros r x Hx. cbn [persisted]. apply In_persisted_after_save. split.
      * apply In_set_update. right. exact Hx.
      * apply filter_In in Hx. tauto.
    + intros _ x. cbn [persisted]. rewrite In_persisted_after_save.
      rewrite In_set_update.
      change (load_imo_json false (persisted st)) with (@nil string).
      rewrite filter_In. simpl In. tauto.
Qed.

End GcsProofs.

(** ** Rebuild of the index *)
Module RebuildProofs.
Import Gcs RebuildSpec.

(** C9: [rebuild_imo_gallery_json] reads [blobs.prefixes] before the lazy
    listing has read a page, so for every listing it finds no folder and
    leaves the state as it was; its loop body, run on the folder prefixes
    of a listing, would take their identifiers. *)
Theorem rebuild_finds_nothing (w : bool) (listing : list (list string)) (st : state) :
  rebuild_imo_gallery_json w listing st = ([], st) /\
  fold_left rebuild_step (concat one_vessel_listing) [] = ["9169031"].
Proof. split; [reflexivity | vm_compute; reflexivity]. Qed.

Lemma rebuild_misses_conforming_folder : ~ rebuild_returns_conforming.
Proof.
  intros H.
  assert (Hc : forallb (fun p => match conforming_folder (split_slash_last (rstrip_slash p)) with
                                 | Some _ => true
                                 | None => false
                                 end) (concat one_vessel_listing) = true)
    by (vm_compute; reflexivity).
  pose proof (proj2 (H true one_vessel_listing (mkState None None []) Hc "9169031")) as F.
  assert (I : In "9169031" (fst (rebuild_imo_gallery_json true one_vessel_listing
                                   (mkState None None [])))).
  { apply F. exists (GcsBlobs.photo_base ++ "/IMO_9169031/").
    split; [left; reflexivity | vm_compute; reflexivity]. }
  vm_compute in I. exact I.
Qed.

End RebuildProofs.

(** ** Identifier source *)
Module ExtractorProofs.
Import Extractor ExtractorSpec.

Lemma In_collect_imos (x : string) (vs : list (option string)) :
  In x (collect_imos vs) <-> exists v, In v vs /\ accept_imo v = Some x.
Proof.
  induction vs as [|v r IH]; simpl.
  - split; [intros []|intros [v [[] _]]].
  - destruct (accept_imo v) as [y|] eqn:E; simpl; rewrite IH; split.
    + intros [->|[u [Hu Hx]]]; [exists v; auto | exists u; auto].
    + intros [u [[->|Hu] Hx]]; [left; congruence | right; exists u; auto].
    + intros [u [Hu Hx]]. exists u. auto.
    + intros [u [[->|Hu] Hx]]; [congruence | exists u; auto].
Qed.

Lemma In_get_imo_numbers (x : string) (vs : list (option string)) :
  In x (get_imo_numbers_with_details vs) <->
  exists v, In v vs /\ accept_imo v = Some x.
Proof.
  unfold get_imo_numbers_with_details, set_of.
  rewrite In_str_sort, In_set_update, In_collect_imos. simpl. tauto.
Qed.

(** C4, counterexample: the API source keeps "12345", and with an empty
    index [find_missing_imos] hands it on to the scraper. *)
Lemma short_imo_reaches_scraper :
  ~ source_ids_valid /\
  fst (find_missing_imos (extract_haifa_imos "api" [Some " 12345 "])
         (fst (Gcs.check_existing_imos true (Gcs.mkState None None []))))
  = ["12345"].
Proof.
  split; [|reflexivity].
  intros H. specialize (H "api" [Some " 12345 "] "12345").
  assert (Hin : In "12345" (extract_haifa_imos "api" [Some " 12345 "]))
    by (vm_compute; left; reflexivity).
  apply H in Hin. discriminate Hin.
Qed.

(** C4, amended: an identifier of the API source is exactly the stripped
    [imo] field of some vessel, non-empty and not one of "null", "n/a",
    "none", "0" in lower case; no 7-digit test is made. An identifier the
    index does not hold is passed on by [find_missing_imos]. *)
Theorem identifier_source_filter (vessel_imos : list (option string))
    (x : string) :
  (In x (extract_haifa_imos "api" vessel_imos) <->
   exists s, In (Some s) vessel_imos /\ x = str_strip s /\ x <> "" /\
             set_mem (str_lower x) null_like = false) /\
  (forall existing_imos,
     In x (extract_haifa_imos "api" vessel_imos) ->
     set_mem x existing_imos = false ->
     In x (fst (find_missing_imos (extract_haifa_imos "api" vessel_imos)
                                  existing_imos))).
Proof.
  split.
  - change (extract_haifa_imos "api" vessel_imos)
      with (get_imo_numbers_with_details vessel_imos).
    rewrite In_get_imo_numbers. split.
    + intros [[s|] [Hv Ha]]; [|discriminate Ha].
      unfold accept_imo in Ha.
      destruct (negb (String.eqb s "")) eqn:E1; [|discriminate Ha].
      destruct (String.eqb (str_strip s) "") eqn:E2; [discriminate Ha|].
      destruct (set_mem (str_lower (str_strip s)) null_like) eqn:E3;
        [discriminate Ha|].
      injection Ha as <-. exists s. repeat split; auto.
      intros Hs. rewrite Hs in E2. discriminate E2.
    + intros [s [Hv [-> [Hne Hnull]]]]. exists (Some s). split; [exact Hv|].
      unfold accept_imo. rewrite Hnull.
      destruct (String.eqb (str_strip s) "") eqn:E2.
      * apply String.eqb_eq in E2. contradiction.
      * destruct (String.eqb s "") eqn:E1; [|reflexivity].
        apply String.eqb_eq in E1. subst s. vm_compute in E2. discriminate E2.
  - intros existing_imos Hin Hnot. simpl fst. apply filter_In.
    rewrite Hnot. auto.
Qed.

End ExtractorProofs.

(** ** Resilient session *)
Module SessionProofs.
Import Session SessionSpec.

Lemma loop_ok_cons (max_retries lo lo' hi : nat) (e : event)
    (r : option Z) (ev : list event) (k k' : nat) :
  loop_ok max_retries lo' hi (r, ev, k) ->
  event_attempt e = Some lo -> lo <= lo' <= S lo -> lo < hi ->
  (forall a, e = Backoff a -> a < max_retries - 1) ->
  loop_ok max_retries lo hi (r, e :: ev, k').
Proof.
  intros [A [B C]] He Hlo Hhi HB. split; [|split].
  - intros e' [<-|H']; [exists lo; split; [exact He | lia]|].
    destruct (A e' H') as [a [Ha Hr]]. exists a. split; [exact Ha | lia].
  - intros a [Ha|Ha]; [apply HB; exact Ha | apply B, Ha].
  - intros s Hs. destruct (C s Hs) as [Hn Hfive]. split; [exact Hn|].
    intros H5 a Ha Hm. destruct (Nat.eq_dec a lo) as [->|Hne].
    + exists e. split; [left; reflexivity | exact He].
    + destruct (Hfive H5 a ltac:(lia) Hm) as [e' [He' Hae']].
      exists e'. split; [right; exact He' | exact Hae'].
Qed.

Lemma loop_ok_nil (max_retries lo hi k : nat) :
  loop_ok max_retries lo hi (None, [], k).
Proof.
  split; [intros e []|split; [intros a []|intros s Hs; discriminate Hs]].
Qed.

Lemma get_loop_ok (max_retries : nat) (rm : remote) (url : string)
    (m lo k : nat) :
  loop_ok max_retries lo (lo + m) (get_loop max_retries rm url (seq lo m) k).
Proof.
  revert lo k. induction m as [|m IH]; intros lo k; [apply loop_ok_nil|].
  cbn [seq get_loop].
  assert (IH' : forall k', loop_ok max_retries (S lo) (lo + S m)
                  (get_loop max_retries rm url (seq (S lo) m) k'))
    by (intros k'; replace (lo + S m) with (S lo + m) by lia; apply IH).
  destruct (rm k url) as [s|].
  - destruct (s =? 429)%Z eqn:E429.
    + specialize (IH' (S k)).
      destruct (get_loop max_retries rm url (seq (S lo) m) (S k)) as [[r ev] k''].
      eapply loop_ok_cons; [exact IH' | reflexivity | lia | lia | discriminate].
    + destruct (s =? 403)%Z eqn:E403.
      * destruct (initialize rm (S k)) as [[|] k'].
        -- specialize (IH' k').
           destruct (get_loop max_retries rm url (seq (S lo) m) k') as [[r ev] k''].
           eapply loop_ok_cons; [exact IH' | reflexivity | lia | lia | discriminate].
        -- destruct (lo <? max_retries - 1)%nat eqn:Elt.
           ++ apply Nat.ltb_lt in Elt. specialize (IH' k').
              destruct (get_loop max_retries rm url (seq (S lo) m) k') as [[r ev] k''].
              apply (loop_ok_cons max_retries lo lo _ _ r (Backoff lo :: ev) k'');
                [| reflexivity | lia | lia | discriminate].
              eapply loop_ok_cons; [exact IH' | reflexivity | lia | lia |].
              intros a Ha. injection Ha as <-. exact Elt.
           ++ apply (loop_ok_cons max_retries lo lo _ _ None [] k');
                [apply loop_ok_nil | reflexivity | lia | lia | discriminate].
      * destruct ((500 <=? s)%Z && (lo <? max_retries - 1)%nat) eqn:E5.
        -- apply andb_true_iff in E5. destruct E5 as [_ Elt].
           apply Nat.ltb_lt in Elt. specialize (IH' (S k)).
           destruct (get_loop max_retries rm url (seq (S lo) m) (S k)) as [[r ev] k''].
           eapply loop_ok_cons; [exact IH' | reflexivity | lia | lia |].
           intros a Ha. injection Ha as <-. exact Elt.
        -- split; [intros e []|split; [intros a []|]].
           intros s' Hs. injection Hs as <-.
           apply Z.eqb_neq in E429. apply Z.eqb_neq in E403.
           split; [split; assumption|].
           intros H5 a Ha Hm. apply Z.leb_le in H5. rewrite H5 in E5.
           simpl in E5. apply Nat.ltb_ge in E5. lia.
  - destruct (lo <? max_retries - 1)%nat eqn:Elt.
    + apply Nat.ltb_lt in Elt. specialize (IH' (S k)).
      destruct (get_loop max_retries rm url (seq (S lo) m) (S k)) as [[r ev] k''].
      eapply loop_ok_cons; [exact IH' | reflexivity | lia | lia |].
      intros a Ha. injection Ha as <-. exact Elt.
    + apply loop_ok_nil.
Qed.

(** C5, counterexample: a URL answering 500 three times; the third 500 is
    returned, and the two backoffs before it carry no jitter. *)
Lemma get_returns_last_5xx :
  ~ get_returns_only_success /\
  get MAX_RETRIES always_500 "https://www.shipspotting.com/photos/1" 0
  = (Some 500%Z, [RandomDelay; Backoff 0; Backoff 1], 3).
Proof.
  split; [|reflexivity].
  intros H. destruct (H always_500 "https://www.shipspotting.com/photos/1" 0 500%Z
                        eq_refl) as [_ [_ Hlt]].
  lia.
Qed.

Lemma get_loop_policy (max_retries : nat) (rm : remote) (url : string)
    (m lo k : nat) :
  retry_policy max_retries rm url lo m k (get_loop max_retries rm url (seq lo m) k).
Proof.
  revert lo k. induction m as [|m IH]; intros lo k; [apply RP_exhausted|].
  cbn [seq get_loop].
  destruct (rm k url) as [s|] eqn:Erm.
  - destruct (s =? 429)%Z eqn:E429.
    + apply Z.eqb_eq in E429. subst s. specialize (IH (S lo) (S k)).
      destruct (get_loop max_retries rm url (seq (S lo) m) (S k)) as [[r ev] k''].
      cbv beta iota. eapply RP_rate_limited; eassumption.
    + destruct (s =? 403)%Z eqn:E403.
      * apply Z.eqb_eq in E403. subst s.
        destruct (initialize rm (S k)) as [[|] k1] eqn:Ei.
        -- specialize (IH (S lo) k1).
           destruct (get_loop max_retries rm url (seq (S lo) m) k1) as [[r ev] k''].
           cbv beta iota. eapply RP_reinit; eassumption.
        -- destruct (lo <? max_retries - 1)%nat eqn:Elt.
           ++ apply Nat.ltb_lt in Elt. specialize (IH (S lo) k1).
              destruct (get_loop max_retries rm url (seq (S lo) m) k1) as [[r ev] k''].
              cbv beta iota. eapply RP_reinit_fails; try eassumption. lia.
           ++ apply Nat.ltb_ge in Elt. cbv beta iota.
              eapply RP_reinit_fails_last; try eassumption. lia.
      * apply Z.eqb_neq in E429. apply Z.eqb_neq in E403.
        destruct (500 <=? s)%Z eqn:E500.
        -- apply Z.leb_le in E500.
           destruct (lo <? max_retries - 1)%nat eqn:Elt; cbn [andb].
           ++ apply Nat.ltb_lt in Elt. specialize (IH (S lo) (S k)).
              destruct (get_loop max_retries rm url (seq (S lo) m) (S k)) as [[r ev] k''].
              cbv beta iota. eapply RP_server_error; try eassumption. lia.
           ++ apply Nat.ltb_ge in Elt.
              eapply RP_server_error_last; try eassumption. lia.
        -- apply Z.leb_gt in E500. cbn [andb].
           apply RP_returned; assumption.
  - destruct (lo <? max_retries - 1)%nat eqn:Elt.
    + apply Nat.ltb_lt in Elt. specialize (IH (S lo) (S k)).
      destruct (get_loop max_retries rm url (seq (S lo) m) (S k)) as [[r ev] k''].
      cbv beta iota. eapply RP_transport; try eassumption. lia.
    + apply Nat.ltb_ge in Elt. apply RP_transport_last; [assumption | lia].
Qed.

(** C5, amended: [get] makes at most 3 attempts, and its delays and
    result follow the retry policy attempt by attempt: after a 429 a wait
    with jitter, the only one; after a 5xx or a transport error a wait
    without jitter, except on the last attempt, where the 5xx is returned
    and a transport error gives [None]; after a 403 a re-created session
    and no wait, unless the re-creation raises, which is handled as a
    transport error; any other status returned at once; [None] once the
    attempts are used up. So it returns [None] or a response that is no
    429 nor 403, and a 5xx only from the last attempt. *)
Theorem get_retry_outcomes (rm : remote) (url : string) (k : nat) :
  let '(r, ev, k') := get MAX_RETRIES rm url k in
  (exists ev', ev = RandomDelay :: ev' /\
     retry_policy MAX_RETRIES rm url 0 MAX_RETRIES k (r, ev', k')) /\
  (forall e, In e ev ->
     e = RandomDelay \/ exists a, event_attempt e = Some a /\ a < 3) /\
  (forall a, In (Backoff a) ev -> a < 2) /\
  (forall s, r = Some s -> (s <> 429 /\ s <> 403)%Z /\
     ((500 <= s)%Z -> exists e0 e1, In e0 ev /\ event_attempt e0 = Some 0 /\
                                    In e1 ev /\ event_attempt e1 = Some 1)).
Proof.
  unfold get. pose proof (get_loop_ok MAX_RETRIES rm url MAX_RETRIES 0 k) as Hok.
  pose proof (get_loop_policy MAX_RETRIES rm url MAX_RETRIES 0 k) as Hp.
  destruct (get_loop MAX_RETRIES rm url (seq 0 MAX_RETRIES) k) as [[r ev] k'].
  unfold loop_ok in Hok. cbv beta iota zeta. destruct Hok as [A [B C]].
  unfold MAX_RETRIES in A, B, C.
  split; [exists ev; split; [reflexivity | exact Hp]|].
  split; [|split].
  - intros e [<-|He]; [left; reflexivity|right].
    destruct (A e He) as [a [Ha Hr]]. exists a. split; [exact Ha | lia].
  - intros a [Ha|Ha]; [discriminate Ha|]. exact (B a Ha).
  - intros s Hs. destruct (C s Hs) as [Hn H5]. split; [exact Hn|].
    intros Hle.
    destruct (H5 Hle 0 ltac:(lia) ltac:(unfold MAX_RETRIES; lia)) as [e0 [He0 Ha0]].
    destruct (H5 Hle 1 ltac:(lia) ltac:(unfold MAX_RETRIES; lia)) as [e1 [He1 Ha1]].
    exists e0, e1. repeat split; (right; assumption) || assumption.
Qed.

(** C6: when the remote answers 403 to the first request of [get] and 200
    to every later one, [get] re-initialises the session (its two warm-up
    requests included) and returns the 200 response of its second
    attempt. *)
Theorem get_recovers_after_403 (rm : remote) (url : string) (k : nat)
    (H403 : rm k url = Resp 403)
    (H200 : forall j u, k < j -> rm j u = Resp 200) :
  get MAX_RETRIES rm url k = (Some 200%Z, [RandomDelay; Reinitialize 0], k + 4).
Proof.
  unfold get, MAX_RETRIES. cbn [seq get_loop]. rewrite H403. cbn.
  unfold initialize. rewrite (H200 (S k)) by lia. cbn.
  rewrite (H200 (S (S k))) by lia. cbn.
  rewrite (H200 (S (S (S k)))) by lia. cbn.
  replace (k + 4) with (S (S (S (S k)))) by lia. reflexivity.
Qed.

Lemma get_recovers_after_403_witness :
  first_403_then_200 0 "https://www.shipspotting.com/photos/1" = Resp 403 /\
  (forall j u, 0 < j -> first_403_then_200 j u = Resp 200) /\
  get MAX_RETRIES first_403_then_200 "https://www.shipspotting.com/photos/1" 0
  = (Some 200%Z, [RandomDelay; Reinitialize 0], 0 + 4).
Proof.
  split; [reflexivity|]. split.
  - intros j u Hj. destruct j; [lia | reflexivity].
  - apply get_recovers_after_403; [reflexivity|].
    intros j u Hj. destruct j; [lia | reflexivity].
Defined.

End SessionProofs.

(** ** Gallery discovery *)
Module FinderProofs.
Import Finder FinderSpec.

Lemma NoDup_firstn_str (n : nat) (l : list string) :
  NoDup l -> NoDup (firstn n l).
Proof.
  intros H. rewrite <- (firstn_skipn n l) in H.
  exact (NoDup_app_remove_r _ _ H).
Qed.

Lemma In_firstn_str (n : nat) (l : list string) (x : string) :
  In x (firstn n l) -> In x l.
Proof.
  intros H. rewrite <- (firstn_skipn n l). apply in_or_app. left. exact H.
Qed.

Lemma collect_pages_NoDup (a : list string) (t : Z) (rs : list (list string)) :
  NoDup a -> NoDup (collect_pages a t rs).
Proof.
  revert a. induction rs as [|r rs IH]; intros a H; simpl; [exact H|].
  destruct (t <=? _)%Z; [|apply IH]; apply NoDup_set_update, H.
Qed.

Lemma collect_pages_In (a : list string) (t : Z) (rs : list (list string))
    (x : string) :
  In x (collect_pages a t rs) -> In x a \/ exists r, In r rs /\ In x r.
Proof.
  revert a. induction rs as [|r rs IH]; intros a H; simpl in H; [left; exact H|].
  destruct (t <=? _)%Z.
  - apply In_set_update in H. destruct H as [H|H]; [left; exact H|].
    right. exists r. split; [left; reflexivity | exact H].
  - apply IH in H. destruct H as [H|[r' [Hr' Hx]]].
    + apply In_set_update in H. destruct H as [H|H]; [left; exact H|].
      right. exists r. split; [left; reflexivity | exact H].
    + right. exists r'. split; [right; exact Hr' | exact Hx].
Qed.

Lemma search_NoDup (g : gallery) (sort_by : string) (mp t : Z) :
  NoDup (fst (fst (search_gallery_pages_parallel g sort_by mp t))).
Proof.
  unfold search_gallery_pages_parallel.
  destruct (g sort_by 1%nat) as [h|]; [|constructor].
  assert (H0 : NoDup (set_update [] (extract_photo_ids h)))
    by (apply NoDup_set_update; constructor).
  destruct (_ <=? 1)%Z; simpl; [exact H0|].
  apply collect_pages_NoDup, H0.
Qed.

Lemma alternate_sorts_NoDup (g : gallery) (sorts : list string) (m goal : Z)
    (a : list string) :
  NoDup a -> NoDup (alternate_sorts g sorts m goal a).
Proof.
  revert a. induction sorts as [|s r IH]; intros a H; simpl; [exact H|].
  destruct (set_diff _ a); [apply IH, H|].
  destruct (goal <=? _)%Z; [|apply IH]; apply NoDup_set_update, H.
Qed.

Lemma alternate_sorts_In (g : gallery) (sorts : list string) (m goal : Z)
    (a : list string) (x : string) :
  In x (alternate_sorts g sorts m goal a) ->
  In x a \/ exists s, In x (fst (fst (search_gallery_pages_parallel g s 3 m))).
Proof.
  revert a. induction sorts as [|s r IH]; intros a H; simpl in H; [left; exact H|].
  remember (set_diff (fst (fst (search_gallery_pages_parallel g s 3 m))) a) as nw.
  assert (Hnw : forall y, In y nw ->
            In y (fst (fst (search_gallery_pages_parallel g s 3 m)))).
  { intros y Hy. rewrite Heqnw in Hy. unfold set_diff in Hy.
    apply filter_In in Hy. tauto. }
  destruct nw as [|n ns].
  - exact (IH a H).
  - destruct (goal <=? _)%Z.
    + apply In_set_update in H. destruct H as [H|H]; [left; exact H|].
      right. exists s. apply Hnw, H.
    + apply IH in H. destruct H as [H|H]; [|right; exact H].
      apply In_set_update in H. destruct H as [H|H]; [left; exact H|].
      right. exists s. apply Hnw, H.
Qed.

(** C1: the list [find_photos] returns has at most [max_photos_per_imo]
    identifiers and no duplicate. *)
Theorem find_photos_bounded_nodup (cfg : config) (g : gallery) :
  List.length (fst (find_photos cfg g)) <= max_photos_per_imo cfg /\
  NoDup (fst (find_photos cfg g)).
Proof.
  unfold find_photos.
  destruct (search_gallery_pages_parallel g "newest" (max_gallery_pages cfg)
              (Z.of_nat (max_photos_per_imo cfg))) as [[ids total] pages].
  cbv beta iota zeta. destruct (total =? 0)%Z; cbn [fst].
  - split; [simpl; lia | constructor].
  - assert (H0 : NoDup (set_update [] ids))
      by (apply NoDup_set_update; constructor).
    split; [apply firstn_le_length|apply NoDup_firstn_str].
    destruct (_ && _); [apply alternate_sorts_NoDup|]; exact H0.
Qed.

Lemma extract_step_digit_id (acc : list string) (href : option string)
    (x : string) :
  In x (extract_step acc href) -> In x acc \/ digit_id x.
Proof.
  unfold extract_step. intros H. destruct href as [h|]; [|left; exact H].
  destruct (photos_search (list_ascii_of_string h)) as [p|]; [|left; exact H].
  destruct (str_isdigit p && (4 <=? String.length p)%nat) eqn:E;
    [|left; exact H].
  apply In_set_add in H. destruct H as [->|H]; [right|left; exact H].
  apply andb_true_iff in E. destruct E as [Ed El]. split.
  - apply Forall_forall. intros c Hc.
    destruct p as [|c0 p']; [discriminate Ed|].
    unfold str_isdigit in Ed. rewrite forallb_forall in Ed. exact (Ed c Hc).
  - apply Nat.leb_le, El.
Qed.

Lemma extract_photo_ids_digit_id (h : html) (x : string) :
  In x (extract_photo_ids h) -> digit_id x.
Proof.
  unfold extract_photo_ids.
  assert (Hgen : forall hs acc, (forall y, In y acc -> digit_id y) ->
            In x (fold_left extract_step hs acc) -> digit_id x).
  { induction hs as [|hr hs IH]; intros acc Hacc Hx; simpl in Hx.
    - exact (Hacc x Hx).
    - apply (IH (extract_step acc hr)); [|exact Hx].
      intros y Hy. destruct (extract_step_digit_id acc hr y Hy) as [Hy'|Hy'];
        [exact (Hacc y Hy') | exact Hy']. }
  apply Hgen. intros y [].
Qed.

Lemma search_digit_id (g : gallery) (sort_by : string) (mp t : Z) (x : string) :
  In x (fst (fst (search_gallery_pages_parallel g sort_by mp t))) -> digit_id x.
Proof.
  unfold search_gallery_pages_parallel.
  destruct (g sort_by 1%nat) as [h|] eqn:Eg; [|intros []].
  assert (H0 : forall y, In y (set_update [] (extract_photo_ids h)) -> digit_id y).
  { intros y Hy. apply In_set_update in Hy. destruct Hy as [[]|Hy].
    exact (extract_photo_ids_digit_id h y Hy). }
  destruct (_ <=? 1)%Z; cbn [fst]; [apply H0|].
  intros Hx. apply collect_pages_In in Hx. destruct Hx as [Hx|[r [Hr Hx]]].
  - exact (H0 x Hx).
  - apply in_map_iff in Hr. destruct Hr as [p [<- _]].
    unfold fetch_page in Hx. destruct (g sort_by p) as [h'|]; [|destruct Hx].
    exact (extract_photo_ids_digit_id h' x Hx).
Qed.

(** C10: every identifier [extract_photo_ids] yields, and every one
    [find_photos] returns, is a string of decimal digits of length at
    least 4. *)
Theorem photo_ids_are_digit_strings (cfg : config) (g : gallery) :
  (forall h x, In x (extract_photo_ids h) -> digit_id x) /\
  (forall x, In x (fst (find_photos cfg g)) -> digit_id x).
Proof.
  split; [exact extract_photo_ids_digit_id|].
  intros x. unfold find_photos.
  pose proof (search_digit_id g "newest" (max_gallery_pages cfg)
                (Z.of_nat (max_photos_per_imo cfg))) as Hs.
  destruct (search_gallery_pages_parallel g "newest" (max_gallery_pages cfg)
              (Z.of_nat (max_photos_per_imo cfg))) as [[ids total] pages].
  cbn [fst] in Hs. cbv beta iota zeta.
  assert (H0 : forall y, In y (set_update [] ids) -> digit_id y).
  { intros y Hy. apply In_set_update in Hy. destruct Hy as [[]|Hy]. exact (Hs y Hy). }
  destruct (total =? 0)%Z; cbn [fst]; [intros []|].
  intros Hx. apply In_firstn_str in Hx.
  destruct (_ && _); [|exact (H0 x Hx)].
  apply alternate_sorts_In in Hx. destruct Hx as [Hx|[so Hx]];
    [exact (H0 x Hx) | exact (search_digit_id _ _ _ _ x Hx)].
Qed.

(** C7, counterexample: a full first page without a count and
    [max_pages = 10] (the default [max_gallery_pages]); pages 1 to 5 are
    fetched, not 10. *)
Lemma unknown_total_fetches_five_pages :
  ~ unknown_total_fetches_max_pages /\
  snd (search_gallery_pages_parallel full_page_gallery "newest" 10 40)
  = [1; 2; 3; 4; 5].
Proof.
  split; [|reflexivity].
  intros H.
  specialize (H full_page_gallery "newest" 10%Z 40%Z full_page eq_refl).
  assert (Hlen : (12 <= List.length (extract_photo_ids full_page))%nat)
    by (vm_compute; lia).
  specialize (H Hlen eq_refl). vm_compute in H. discriminate H.
Qed.

(** C7, amended: with a full first page and no positive total, the pages
    fetched for the sort order are 1 to [min(max_pages, 5)] (page 1 alone
    when that is below 2). *)
Theorem unknown_total_fetch_count (g : gallery) (sort_by : string)
    (max_pages target_count : Z) (h : html)
    (Hpage1 : g sort_by 1%nat = Some h)
    (Hfull : (12 <= List.length (extract_photo_ids h))%nat)
    (Hcount : (get_photo_count h <= 0)%Z) :
  snd (search_gallery_pages_parallel g sort_by max_pages target_count)
  = seq 1 (Nat.max 1 (Z.to_nat (Z.min max_pages 5))).
Proof.
  unfold search_gallery_pages_parallel. rewrite Hpage1.
  unfold pages_needed. apply Nat.leb_le in Hfull. rewrite Hfull.
  apply Z.leb_le in Hcount. rewrite Hcount.
  destruct (Z.min max_pages 5 <=? 1)%Z eqn:E; cbn [snd].
  - apply Z.leb_le in E. replace (Nat.max 1 (Z.to_nat (Z.min max_pages 5))) with 1
      by lia. reflexivity.
  - apply Z.leb_gt in E.
    replace (Nat.max 1 (Z.to_nat (Z.min max_pages 5)))
      with (S (Z.to_nat (Z.min max_pages 5) - 1)) by lia.
    reflexivity.
Qed.

Lemma unknown_total_fetch_count_witness :
  full_page_gallery "newest" 1%nat = Some full_page /\
  (12 <= List.length (extract_photo_ids full_page))%nat /\
  (get_photo_count full_page <= 0)%Z /\
  snd (search_gallery_pages_parallel full_page_gallery "newest" 10 40)
  = seq 1 (Nat.max 1 (Z.to_nat (Z.min 10 5))).
Proof.
  split; [reflexivity|]. split; [vm_compute; lia|]. split; [vm_compute; discriminate|].
  apply unknown_total_fetch_count with (h := full_page);
    [reflexivity | vm_compute; lia | vm_compute; discriminate].
Defined.

End FinderProofs.

(** ** Image fetch *)
Module UploaderProofs.
Import Uploader UploaderSpec.

Lemma try_urls_skip (client : string -> download) (ok : bool) (x : string)
    (r : list string) :
  accepts client x = false ->
  try_urls client ok (x :: r) =
  (fst (try_urls client ok r), x :: snd (try_urls client ok r)).
Proof.
  unfold accepts. intros Hx. simpl.
  destruct (try_urls client ok r) as [res tried]. simpl.
  destruct (client x) as [st ct|]; [|reflexivity].
  destruct (st =? 200)%Z; [|reflexivity].
  simpl in Hx. rewrite Hx. reflexivity.
Qed.

Lemma try_urls_take (client : string -> download) (ok : bool) (x : string)
    (r : list string) :
  accepts client x = true -> try_urls client ok (x :: r) = (ok, [x]).
Proof.
  unfold accepts. intros Hx. simpl.
  destruct (try_urls client ok r) as [res tried].
  destruct (client x) as [st ct|]; [|discriminate Hx].
  apply andb_true_iff in Hx. destruct Hx as [H200 Himg].
  rewrite H200, Himg. reflexivity.
Qed.

Lemma try_urls_first (client : string -> download) (ok : bool)
    (urls : list string) (i : nat) (u : string) :
  nth_error urls i = Some u -> accepts client u = true ->
  (forall j v, j < i -> nth_error urls j = Some v -> accepts client v = false) ->
  try_urls client ok urls = (ok, firstn (S i) urls).
Proof.
  revert i. induction urls as [|x r IH]; intros i Hu Ha Hbefore.
  - destruct i; discriminate Hu.
  - destruct i as [|i].
    + injection Hu as ->. rewrite try_urls_take by exact Ha. reflexivity.
    + rewrite try_urls_skip by (apply (Hbefore 0); [lia | reflexivity]).
      rewrite (IH i Hu Ha); [reflexivity|].
      intros j v Hj Hv. apply (Hbefore (S j)); [lia | exact Hv].
Qed.

Lemma try_urls_none (client : string -> download) (ok : bool)
    (urls : list string) :
  (forall u, In u urls -> accepts client u = false) ->
  try_urls client ok urls = (false, urls).
Proof.
  induction urls as [|x r IH]; intros Hall; [reflexivity|].
  rewrite try_urls_skip by (apply Hall; left; reflexivity).
  rewrite IH by (intros u Hu; apply Hall; right; exact Hu). reflexivity.
Qed.

(** C8: [download_and_upload_image] requests the candidate URLs in order,
    stops at the first one answering 200 with an image content type (its
    result is then the upload's), and when none does it returns [false]
    after requesting each candidate exactly once. *)
Theorem download_first_acceptable (client : string -> download)
    (upload_ok : bool) (photo_id : string) :
  (forall i u,
     nth_error (construct_image_url photo_id) i = Some u ->
     accepts client u = true ->
     (forall j v, j < i -> nth_error (construct_image_url photo_id) j = Some v ->
                  accepts client v = false) ->
     download_and_upload_image client upload_ok photo_id
     = (upload_ok, firstn (S i) (construct_image_url photo_id))) /\
  ((forall u, In u (construct_image_url photo_id) -> accepts client u = false) ->
   download_and_upload_image client upload_ok photo_id
   = (false, construct_image_url photo_id)).
Proof.
  unfold download_and_upload_image. split.
  - intros i u. apply try_urls_first.
  - apply try_urls_none.
Qed.

End UploaderProofs.

(** * Proofs about the rest of the code *)

(** ** Strings, lists and sets *)

Lemma list_ascii_app (a b : string) :
  list_ascii_of_string (a ++ b) = (list_ascii_of_string a ++ list_ascii_of_string b)%list.
Proof. induction a as [|c a IH]; simpl; [reflexivity | rewrite IH; reflexivity]. Qed.

Lemma string_of_list_app (a b : list ascii) :
  string_of_list_ascii (a ++ b) = string_of_list_ascii a ++ string_of_list_ascii b.
Proof. induction a as [|c a IH]; simpl; [reflexivity | rewrite IH; reflexivity]. Qed.

Lemma str_app_assoc (a b c : string) : a ++ b ++ c = (a ++ b) ++ c.
Proof. induction a as [|x a IH]; simpl; [reflexivity | rewrite IH; reflexivity]. Qed.

Lemma str_app_inv_l (a x y : string) : a ++ x = a ++ y -> x = y.
Proof. induction a as [|c a IH]; simpl; [auto | intros H; injection H; exact IH]. Qed.

Lemma str_app_inv_r (x y b : string) : x ++ b = y ++ b -> x = y.
Proof.
  intros H. apply (f_equal list_ascii_of_string) in H.
  rewrite !list_ascii_app in H. apply app_inv_tail in H.
  rewrite <- (string_of_list_ascii_of_string x), <- (string_of_list_ascii_of_string y).
  rewrite H. reflexivity.
Qed.

Lemma prefix_app_same (a b c : string) :
  String.prefix (a ++ b) (a ++ c) = String.prefix b c.
Proof.
  induction a as [|x a IH]; simpl; [reflexivity|].
  destruct (ascii_dec x x) as [_|n]; [exact IH | contradiction n; reflexivity].
Qed.

Lemma take_while_app_all {A} (p : A -> bool) (l1 l2 : list A) :
  Forall (fun x => p x = true) l1 -> take_while p (l1 ++ l2) = (l1 ++ take_while p l2)%list.
Proof.
  induction 1 as [|x l Hx Hl IH]; simpl; [reflexivity | rewrite Hx, IH; reflexivity].
Qed.

Lemma filter_id {A} (f : A -> bool) (l : list A) :
  (forall x, In x l -> f x = true) -> filter f l = l.
Proof.
  induction l as [|x r IH]; intros H; simpl; [reflexivity|].
  rewrite (H x (or_introl eq_refl)), IH; [reflexivity|].
  intros y Hy. apply H. right. exact Hy.
Qed.

Lemma filter_filter_and {A} (f g : A -> bool) (l : list A) :
  filter f (filter g l) = filter (fun x => g x && f x) l.
Proof.
  induction l as [|x r IH]; simpl; [reflexivity|].
  destruct (g x); simpl; [destruct (f x); simpl|]; rewrite IH; reflexivity.
Qed.

Lemma filter_length_split {A} (f : A -> bool) (l : list A) :
  (List.length (filter (fun x => negb (f x)) l) + List.length (filter f l))%nat
  = List.length l.
Proof.
  induction l as [|x r IH]; simpl; [reflexivity|].
  destruct (f x); simpl; lia.
Qed.

Lemma set_update_NoDup (acc l : list string) :
  NoDup (acc ++ l) -> set_update acc l = (acc ++ l)%list.
Proof.
  unfold set_update. revert acc. induction l as [|x r IH]; intros acc H; simpl.
  - rewrite app_nil_r. reflexivity.
  - assert (Hx : ~ In x acc).
    { intros Hin. apply (NoDup_remove_2 acc r x H). apply in_or_app. left. exact Hin. }
    unfold set_add. destruct (set_mem x acc) eqn:E;
      [apply set_mem_In in E; contradiction|].
    rewrite IH; [rewrite <- app_assoc; reflexivity|].
    rewrite <- app_assoc. exact H.
Qed.

Lemma filter_set_add (f : string -> bool) (x : string) (s : list string) :
  filter f (set_add x s) = if f x then set_add x (filter f s) else filter f s.
Proof.
  unfold set_add. destruct (f x) eqn:Fx.
  - destruct (set_mem x s) eqn:E1.
    + assert (E2 : set_mem x (filter f s) = true).
      { apply set_mem_In, filter_In. split; [apply set_mem_In, E1 | exact Fx]. }
      rewrite E2. reflexivity.
    + assert (E2 : set_mem x (filter f s) = false).
      { destruct (set_mem x (filter f s)) eqn:E; [|reflexivity].
        apply set_mem_In, filter_In in E. destruct E as [E _].
        apply set_mem_In in E. congruence. }
      rewrite E2, filter_app. simpl. rewrite Fx. reflexivity.
  - destruct (set_mem x s); [reflexivity|].
    rewrite filter_app. simpl. rewrite Fx, app_nil_r. reflexivity.
Qed.

Lemma set_update_map (f : string -> string) (acc l : list string) :
  (forall a b, f a = f b -> a = b) ->
  set_update (map f acc) (map f l) = map f (set_update acc l).
Proof.
  intros Hinj. unfold set_update. revert acc.
  induction l as [|x r IH]; intros acc; simpl; [reflexivity|].
  rewrite <- IH. f_equal. unfold set_add.
  assert (E : set_mem (f x) (map f acc) = set_mem x acc).
  { destruct (set_mem x acc) eqn:E1.
    - apply set_mem_In. apply in_map, set_mem_In, E1.
    - destruct (set_mem (f x) (map f acc)) eqn:E2; [|reflexivity].
      apply set_mem_In, in_map_iff in E2. destruct E2 as [y [Hy Hin]].
      apply Hinj in Hy. subst y. apply set_mem_In in Hin. congruence. }
  rewrite E. destruct (set_mem x acc); [reflexivity|].
  rewrite map_app. reflexivity.
Qed.

Lemma HdRel_str_insert (x y : string) (l : list string) :
  HdRel ExtraSpec.str_le y l -> ExtraSpec.str_le y x ->
  HdRel ExtraSpec.str_le y (str_insert x l).
Proof.
  destruct l as [|z r]; simpl; intros H Hyx; [constructor; exact Hyx|].
  destruct (String.leb x z).
  - constructor. exact Hyx.
  - inversion H; subst. constructor. assumption.
Qed.

Lemma Sorted_str_insert (x : string) (l : list string) :
  Sorted ExtraSpec.str_le l -> Sorted ExtraSpec.str_le (str_insert x l).
Proof.
  induction l as [|y r IH]; intros H; simpl.
  - repeat constructor.
  - destruct (String.leb x y) eqn:E.
    + constructor; [exact H | constructor; exact E].
    + inversion H as [|? ? Hr Hhd]; subst. constructor; [apply IH, Hr|].
      apply HdRel_str_insert; [exact Hhd|].
      destruct (String.leb_total x y) as [H'|H']; [congruence | exact H'].
Qed.

Lemma Sorted_str_sort (l : list string) : Sorted ExtraSpec.str_le (str_sort l).
Proof.
  induction l as [|x r IH]; simpl; [constructor | apply Sorted_str_insert, IH].
Qed.

Lemma NoDup_str_sort (l : list string) : NoDup l -> NoDup (str_sort l).
Proof.
  intros H. eapply Permutation_NoDup; [apply Permutation_sym, str_sort_perm | exact H].
Qed.

(** ** Dedup index: load, save, flush and cache *)
Module GcsExtra.
Import Gcs GcsBlobs ExtraSpec.

(** Saving a duplicate-free list and loading it back gives its valid
    identifiers in sorted order, without duplicates. *)
Theorem save_then_load (imos : list string) (p : option doc)
    (Hnd : NoDup imos) :
  load_imo_json true (save_imo_json true imos p) = str_sort (filter valid_imo imos) /\
  Sorted str_le (str_sort (filter valid_imo imos)) /\
  NoDup (str_sort (filter valid_imo imos)).
Proof.
  set (L := str_sort (filter valid_imo imos)).
  assert (Hv : forall x, In x L -> valid_imo x = true).
  { intros x Hx. apply In_str_sort, filter_In in Hx. tauto. }
  assert (Hn : NoDup L) by (apply NoDup_str_sort, NoDup_filter, Hnd).
  split; [|split; [apply Sorted_str_sort | exact Hn]].
  change (load_imo_json true (save_imo_json true imos p))
    with (filter valid_imo (set_of (filter valid_imo L))).
  unfold set_of. rewrite (filter_id _ L Hv).
  rewrite set_update_NoDup by exact Hn. simpl.
  apply filter_id, Hv.
Qed.

Lemma save_then_load_witness :
  NoDup ["9289972"; "abc"; "9169031"] /\
  load_imo_json true (save_imo_json true ["9289972"; "abc"; "9169031"] None)
    = ["9169031"; "9289972"].
Proof.
  split; [repeat constructor; simpl; intuition discriminate|].
  destruct (save_then_load ["9289972"; "abc"; "9169031"] None) as [H _];
    [repeat constructor; simpl; intuition discriminate|].
  rewrite H. reflexivity.
Defined.

(** The end-of-run flush always empties the pending set, a second flush
    changes nothing, and a flush whose save fails leaves the blob as it
    was. *)
Theorem flush_clears_pending (r w r' w' : bool) (st : state) :
  new_imos (update_imo_gallery_json r w st) = [] /\
  update_imo_gallery_json r' w' (update_imo_gallery_json r w st)
    = update_imo_gallery_json r w st /\
  persisted (update_imo_gallery_json r false st) = persisted st.
Proof.
  unfold update_imo_gallery_json.
  destruct (new_imos st) as [|n ns] eqn:E.
  - rewrite E. repeat split; reflexivity.
  - repeat split; reflexivity.
Qed.

Lemma step_keeps_cache (o : op) (st : state) (c : list string) :
  keeps_cache o = true -> cached_imos st = Some c ->
  cached_imos (step o st) = Some c.
Proof.
  destruct o; simpl; intros Hk Hc; try discriminate Hk.
  - unfold upload_image. destruct upload_ok; exact Hc.
  - unfold check_existing_imos. rewrite Hc. exact Hc.
  - unfold check_imo_exists. rewrite Hc. exact Hc.
Qed.

(** Once loaded, the cache is never refreshed by uploads or lookups:
    [check_imo_exists] answers from the loaded set, so a vessel uploaded
    in the same run is still reported absent until the flush. *)
Theorem cache_answers_until_reload (ops : list op) (st : state)
    (c : list string) (r : bool) (x : string)
    (Hc : cached_imos st = Some c) (Hops : forallb keeps_cache ops = true) :
  cached_imos (run ops st) = Some c /\
  check_imo_exists r x (run ops st) = (set_mem x c, run ops st).
Proof.
  assert (H : cached_imos (run ops st) = Some c).
  { unfold run. revert st Hc. induction ops as [|o os IH]; intros st Hc; simpl.
    - exact Hc.
    - simpl in Hops. apply andb_true_iff in Hops as [Ho Hos].
      apply IH; [exact Hos|]. apply step_keeps_cache; assumption. }
  split; [exact H|]. unfold check_imo_exists. rewrite H. reflexivity.
Qed.

Lemma cache_answers_until_reload_witness :
  cached_imos (mkState None (Some []) []) = Some [] /\
  forallb keeps_cache [OUpload true "9169031"] = true /\
  fst (check_imo_exists true "9169031"
         (run [OUpload true "9169031"] (mkState None (Some []) []))) = false.
Proof.
  split; [reflexivity|split; [reflexivity|]].
  destruct (cache_answers_until_reload [OUpload true "9169031"]
              (mkState None (Some []) []) [] true "9169031")
    as [_ H]; [reflexivity | reflexivity |].
  rewrite H. reflexivity.
Defined.

(** When the read of [test_connection] fails, the cache holds the empty
    set, so every vessel of the list is then reported missing. *)
Theorem test_connection_read_error (st : state) (r : bool)
    (haifa : list string) :
  cached_imos (test_connection false st) = Some [] /\
  Extractor.find_missing_imos haifa
    (fst (check_existing_imos r (test_connection false st))) = (haifa, []).
Proof.
  split; [reflexivity|].
  unfold Extractor.find_missing_imos. cbn.
  f_equal; induction haifa as [|x t IH]; simpl; congruence.
Qed.

End GcsExtra.

(** ** Bucket layout: vessel folders, image count, batch upload *)
Module GcsBlobsExtra.
Import Gcs GcsBlobs ExtraSpec.

Lemma prefix_slash_eqb (a b t : string) :
  no_slash a = true -> no_slash b = true ->
  String.prefix (a ++ "/") (b ++ "/" ++ t) = String.eqb a b.
Proof.
  revert b. induction a as [|c a IH]; intros [|c' b] Ha Hb;
    cbn [String.append String.prefix String.eqb].
  - destruct (ascii_dec "/" "/") as [_|n]; [destruct t; reflexivity | contradiction n; reflexivity].
  - destruct (ascii_dec "/" c') as [<-|n]; [|reflexivity].
    discriminate Hb.
  - destruct (ascii_dec c "/") as [->|n]; [|reflexivity].
    discriminate Ha.
  - unfold no_slash in Ha, Hb. cbn [list_ascii_of_string forallb] in Ha, Hb.
    apply andb_true_iff in Ha as [_ Ha], Hb as [_ Hb].
    destruct (ascii_dec c c') as [<-|n].
    + rewrite Ascii.eqb_refl. exact (IH b Ha Hb).
    + rewrite (proj2 (Ascii.eqb_neq c c') n). reflexivity.
Qed.

Lemma prefix_image_path (imo i p : string) :
  no_slash imo = true -> no_slash i = true ->
  String.prefix (imo_prefix imo) (image_path i p) = String.eqb imo i.
Proof.
  intros Ha Hb. unfold imo_prefix, image_path. rewrite !prefix_app_same.
  apply prefix_slash_eqb; assumption.
Qed.

Lemma prefix_metadata_path (imo i p : string) :
  String.prefix (imo_prefix imo) (metadata_path i p) = false.
Proof. reflexivity. Qed.

Lemma endswith_jpg_image (i p : string) : str_endswith ".jpg" (image_path i p) = true.
Proof.
  unfold str_endswith, image_path. rewrite !str_app_assoc.
  rewrite list_ascii_app, rev_app_distr, string_of_list_app.
  destruct (string_of_list_ascii (rev (list_ascii_of_string
             ((((photo_base ++ "/IMO_") ++ i) ++ "/") ++ p)))); reflexivity.
Qed.

Lemma image_path_inj (imo a b : string) : image_path imo a = image_path imo b -> a = b.
Proof.
  unfold image_path. intros H.
  apply str_app_inv_l in H. apply str_app_inv_l in H.
  apply str_app_inv_l in H. apply str_app_inv_l in H.
  exact (str_app_inv_r _ _ _ H).
Qed.

Lemma count_filter_fold (imo : string) (Himo : no_slash imo = true)
    (uploads : list (string * string * bool)) (acc : bucket) :
  forallb (fun u => no_slash (fst (fst u))) uploads = true ->
  filter (fun x => String.prefix (imo_prefix imo) x && str_endswith ".jpg" x)
    (fold_left (fun b '(i, p, m) => upload_image_blobs i p m b) uploads acc)
  = set_update
      (filter (fun x => String.prefix (imo_prefix imo) x && str_endswith ".jpg" x) acc)
      (map (image_path imo)
         (map (fun u => snd (fst u))
            (filter (fun u => String.eqb (fst (fst u)) imo) uploads))).
Proof.
  revert acc. induction uploads as [|[[i p] m] r IH]; intros acc Hsl; [reflexivity|].
  cbn [fold_left forallb fst snd] in *.
  apply andb_true_iff in Hsl as [Hi Hr]. rewrite IH by exact Hr.
  assert (E : filter (fun x => String.prefix (imo_prefix imo) x
                               && str_endswith ".jpg" x) (upload_image_blobs i p m acc)
              = if String.eqb i imo
                then set_add (image_path imo p)
                       (filter (fun x => String.prefix (imo_prefix imo) x
                                         && str_endswith ".jpg" x) acc)
                else filter (fun x => String.prefix (imo_prefix imo) x
                                      && str_endswith ".jpg" x) acc).
  { unfold upload_image_blobs.
    destruct m; [rewrite filter_set_add, prefix_metadata_path; cbv beta iota|];
      rewrite filter_set_add, prefix_image_path, endswith_jpg_image by assumption;
      rewrite String.eqb_sym; destruct (String.eqb_spec i imo) as [->|_];
      reflexivity. }
  rewrite E. cbn [filter fst snd]. destruct (String.eqb i imo); reflexivity.
Qed.

(** [get_imo_image_count] after a sequence of successful [upload_image]
    calls counts the distinct photo ids uploaded for that vessel: each
    image is counted once, and the metadata JSON files, stored under
    [json_base], never. *)
Theorem image_count_after_uploads (uploads : list (string * string * bool))
    (imo : string)
    (Hsl : forallb (fun u => no_slash (fst (fst u))) uploads = true)
    (Himo : no_slash imo = true) :
  get_imo_image_count (bucket_after uploads) imo =
  List.length (set_of (map (fun u => snd (fst u))
                          (filter (fun u => String.eqb (fst (fst u)) imo) uploads))).
Proof.
  unfold get_imo_image_count, list_blobs, bucket_after.
  rewrite filter_filter_and, count_filter_fold by assumption.
  change (filter (fun x => String.prefix (imo_prefix imo) x && str_endswith ".jpg" x) [])
    with (map (image_path imo) []).
  rewrite set_update_map by (apply image_path_inj).
  apply length_map.
Qed.

Lemma image_count_after_uploads_witness :
  forallb (fun u => no_slash (fst (fst u)))
    [("9169031", "1234", true); ("9169031", "1234", true);
     ("9289972", "5678", true); ("9169031", "99", false)] = true /\
  no_slash "9169031" = true /\
  get_imo_image_count
    (bucket_after [("9169031", "1234", true); ("9169031", "1234", true);
                   ("9289972", "5678", true); ("9169031", "99", false)])
    "9169031" = 2%nat.
Proof.
  split; [reflexivity|split; [reflexivity|]].
  rewrite (image_count_after_uploads
             [("9169031", "1234", true); ("9169031", "1234", true);
              ("9289972", "5678", true); ("9169031", "99", false)]
             "9169031" eq_refl eq_refl).
  reflexivity.
Defined.

End GcsBlobsExtra.

(** ** Identifier source and mode selection *)
Module ExtractorExtra.
Import Extractor ExtractorModes ExtraSpec.

(** [extract_haifa_imos()] without a mode reads the API only when
    [SCRAPER_MODE] is set to "api" (any case, surrounding blanks) or, with
    [SCRAPER_MODE] unset or empty, when the interactive answer is "1";
    every other value, unknown ones included, and a closed input give the
    hard-coded list. *)
Theorem default_mode_source (env_mode answer : option string)
    (vessel_imos : list (option string)) :
  extract_haifa_imos_default env_mode answer vessel_imos =
  if uses_api env_mode answer then get_imo_numbers_with_details vessel_imos
  else HARD_CODED_IMOS.
Proof.
  unfold extract_haifa_imos_default, resolve_mode, uses_api, extract_haifa_imos.
  assert (I : forall a : option string,
      String.eqb (choose_mode_interactively a) "api" =
      match a with Some a => String.eqb (str_strip a) "1" | None => false end).
  { intros [a|]; [|reflexivity]. unfold choose_mode_interactively.
    destruct (String.eqb (str_strip a) "1"); [reflexivity|].
    destruct (String.eqb (str_strip a) "2" || String.eqb (str_strip a) ""); reflexivity. }
  destruct env_mode as [e|]; [destruct (negb (String.eqb e ""))|]; rewrite ?I; reflexivity.
Qed.

End ExtractorExtra.

(** ** Resilient session: requests sent *)
Module SessionExtra.
Import Session.

Lemma initialize_requests (rm : remote) (k : nat) :
  let '(_, k') := initialize rm k in (S k <= k' <= k + 3)%nat.
Proof.
  unfold initialize. destruct (rm k BASE_URL) as [s|]; [|cbv beta iota; lia].
  destruct (raises_for_status s); [cbv beta iota; lia|].
  destruct (rm (S k) test_url) as [t|]; [|cbv beta iota; lia].
  destruct (t =? 403)%Z; [|cbv beta iota; lia].
  destruct (rm (S (S k)) test_url); cbv beta iota; lia.
Qed.

Lemma get_loop_requests (mr : nat) (rm : remote) (url : string)
    (l : list nat) (k : nat) :
  let '(_, _, k') := get_loop mr rm url l k in
  (k + Nat.min 1 (List.length l) <= k' <= k + 4 * List.length l)%nat.
Proof.
  revert k. induction l as [|a l IH]; intros k; [cbn; lia|].
  cbn [get_loop List.length].
  destruct (rm k url) as [s|].
  - destruct (s =? 429)%Z.
    + specialize (IH (S k)).
      destruct (get_loop mr rm url l (S k)) as [[r ev] k'']. cbv beta iota in *. lia.
    + destruct (s =? 403)%Z.
      * pose proof (initialize_requests rm (S k)) as Hi.
        destruct (initialize rm (S k)) as [[|] k']; cbv beta iota in Hi.
        -- specialize (IH k').
           destruct (get_loop mr rm url l k') as [[r ev] k'']. cbv beta iota in *. lia.
        -- destruct (a <? mr - 1)%nat.
           ++ specialize (IH k').
              destruct (get_loop mr rm url l k') as [[r ev] k''].
              cbv beta iota in *. lia.
           ++ cbv beta iota. lia.
      * destruct ((500 <=? s)%Z && (a <? mr - 1)%nat).
        -- specialize (IH (S k)).
           destruct (get_loop mr rm url l (S k)) as [[r ev] k''].
           cbv beta iota in *. lia.
        -- cbv beta iota. lia.
  - destruct (a <? mr - 1)%nat.
    + specialize (IH (S k)).
      destruct (get_loop mr rm url l (S k)) as [[r ev] k''].
      cbv beta iota in *. lia.
    + cbv beta iota. lia.
Qed.

(** [get] sends at least one request when it makes an attempt, and at most
    four per attempt: the request itself and the three of a
    re-initialisation after a 403. *)
Theorem get_request_bounds (mr : nat) (rm : remote) (url : string) (k : nat) :
  let '(_, _, k') := get mr rm url k in
  (k + Nat.min 1 mr <= k' <= k + 4 * mr)%nat.
Proof.
  unfold get. pose proof (get_loop_requests mr rm url (seq 0 mr) k) as H.
  rewrite length_seq in H.
  destruct (get_loop mr rm url (seq 0 mr) k) as [[r ev] k'].
  exact H.
Qed.



End SessionExtra.

(** ** Gallery discovery: links, pages and counts *)
Module FinderExtra.
Import Finder.

Lemma take_while_Forall {A} (p : A -> bool) (l : list A) :
  Forall (fun x => p x = true) (take_while p l).
Proof.
  induction l as [|x r IH]; simpl; [constructor|].
  destruct (p x) eqn:E; [constructor; assumption | constructor].
Qed.

Lemma photos_match_at_digits (l : list ascii) (g : string) :
  photos_match_at l = Some g -> str_isdigit g = true.
Proof.
  unfold photos_match_at.
  destruct (String.prefix "/photos/" (string_of_list_ascii l)); [|discriminate].
  pose proof (take_while_Forall is_ascii_digit
                (skipn (List.length (list_ascii_of_string "/photos/")) l)) as HF.
  destruct (take_while is_ascii_digit _) as [|c r]; [discriminate|].
  intros H. injection H as <-.
  change (forallb is_ascii_digit
            (c :: list_ascii_of_string (string_of_list_ascii r)) = true).
  rewrite list_ascii_of_string_of_list_ascii.
  apply forallb_forall, Forall_forall, HF.
Qed.

Lemma photos_search_digits (l : list ascii) (g : string) :
  photos_search l = Some g -> str_isdigit g = true.
Proof.
  induction l as [|c r IH]; cbn [photos_search];
    destruct (photos_match_at _) as [g'|] eqn:E;
    try (intros H; injection H as <-; exact (photos_match_at_digits _ _ E));
    [discriminate | exact IH].
Qed.

Lemma extract_fold_spec (hs : list (option string)) (acc : list string) (x : string) :
  NoDup acc ->
  NoDup (fold_left extract_step hs acc) /\
  (In x (fold_left extract_step hs acc) <->
   In x acc \/ exists href, In (Some href) hs /\
     photos_search (list_ascii_of_string href) = Some x /\ (4 <= String.length x)%nat).
Proof.
  revert acc. induction hs as [|[h|] r IH]; intros acc Hn; cbn [fold_left].
  - split; [exact Hn|]. split; [intros H; left; exact H | intros [H|[href [[] _]]]; exact H].
  - unfold extract_step at 2 4.
    destruct (photos_search (list_ascii_of_string h)) as [p|] eqn:Ep.
    + rewrite (photos_search_digits _ _ Ep), andb_true_l.
      destruct (4 <=? String.length p)%nat eqn:El.
      * destruct (IH (set_add p acc) (NoDup_set_add _ _ Hn)) as [Hn' Hi].
        split; [exact Hn'|]. rewrite Hi, In_set_add. split.
        -- intros [[->|H]|[href [Hh Hx]]]; [right | left; exact H | right].
           ++ exists h. split; [left; reflexivity|]. split; [exact Ep|].
              apply Nat.leb_le, El.
           ++ exists href. split; [right; exact Hh | exact Hx].
        -- intros [H|[href [[Hh|Hh] Hx]]]; [left; right; exact H | | right].
           ++ injection Hh as ->. left; left. rewrite Ep in Hx.
              destruct Hx as [Hx _]. injection Hx as ->. reflexivity.
           ++ exists href. split; [exact Hh | exact Hx].
      * destruct (IH acc Hn) as [Hn' Hi]. split; [exact Hn'|]. rewrite Hi. split.
        -- intros [H|[href [Hh Hx]]]; [left; exact H | right].
           exists href. split; [right; exact Hh | exact Hx].
        -- intros [H|[href [[Hh|Hh] Hx]]]; [left; exact H | | right].
           ++ injection Hh as ->. rewrite Ep in Hx. destruct Hx as [Hx Hl].
              injection Hx as ->. apply Nat.leb_le in Hl. congruence.
           ++ exists href. split; [exact Hh | exact Hx].
    + destruct (IH acc Hn) as [Hn' Hi]. split; [exact Hn'|]. rewrite Hi. split.
      * intros [H|[href [Hh Hx]]]; [left; exact H | right].
        exists href. split; [right; exact Hh | exact Hx].
      * intros [H|[href [[Hh|Hh] Hx]]]; [left; exact H | | right].
        -- injection Hh as ->. rewrite Ep in Hx. destruct Hx as [Hx _]. discriminate Hx.
        -- exists href. split; [exact Hh | exact Hx].
  - change (extract_step acc None) with acc.
    destruct (IH acc Hn) as [Hn' Hi]. split; [exact Hn'|]. rewrite Hi. split.
    + intros [H|[href [Hh Hx]]]; [left; exact H | right].
      exists href. split; [right; exact Hh | exact Hx].
    + intros [H|[href [[Hh|Hh] Hx]]]; [left; exact H | discriminate Hh | right].
      exists href. split; [exact Hh | exact Hx].
Qed.

Lemma extract_photo_ids_NoDup (h : html) : NoDup (extract_photo_ids h).
Proof. exact (proj1 (extract_fold_spec (a_hrefs h) [] "" (NoDup_nil _))). Qed.

Lemma pages_needed_gt1 (len : nat) (t mp tc : Z) :
  (1 < pages_needed len t mp tc)%Z ->
  (pages_needed len t mp tc <= mp)%Z /\ (12 <= len)%nat.
Proof.
  unfold pages_needed. destruct (12 <=? len)%nat eqn:E; [|lia].
  apply Nat.leb_le in E. destruct (t <=? 0)%Z; lia.
Qed.

(** [search_gallery_pages_parallel] requests pages 1 to [n] for some [n]
    between 1 and [max(1, max_pages)]; when page 1 is missing it returns
    nothing with the total -1; otherwise the total is the page count when
    positive and never negative, and a page 1 with fewer than 12
    identifiers is the only page read. *)
Theorem search_pages_requested (g : gallery) (sort_by : string)
    (max_pages target_count : Z) :
  let '((ids, total), pages) :=
    search_gallery_pages_parallel g sort_by max_pages target_count in
  (exists n, pages = seq 1 n /\ 1 <= n <= Nat.max 1 (Z.to_nat max_pages))%nat /\
  (g sort_by 1%nat = None -> ids = [] /\ total = (-1)%Z) /\
  (forall h, g sort_by 1%nat = Some h ->
     (0 <= total)%Z /\
     ((0 < get_photo_count h)%Z -> total = get_photo_count h) /\
     ((List.length (extract_photo_ids h) < 12)%nat ->
      pages = [1%nat] /\ ids = extract_photo_ids h)).
Proof.
  unfold search_gallery_pages_parallel.
  destruct (g sort_by 1%nat) as [h|] eqn:Eg.
  - assert (Hset : set_update [] (extract_photo_ids h) = extract_photo_ids h)
      by (apply set_update_NoDup, extract_photo_ids_NoDup).
    rewrite Hset.
    assert (Ht : forall l : list string,
      (0 <= (if (0 <? get_photo_count h)%Z then get_photo_count h
             else Z.of_nat (List.length l)))%Z /\
      ((0 < get_photo_count h)%Z ->
       (if (0 <? get_photo_count h)%Z then get_photo_count h
        else Z.of_nat (List.length l)) = get_photo_count h)).
    { intros l. destruct (0 <? get_photo_count h)%Z eqn:E.
      - apply Z.ltb_lt in E. split; [lia | reflexivity].
      - apply Z.ltb_ge in E. split; [lia | intros; lia]. }
    set (pn := pages_needed (List.length (extract_photo_ids h))
                 (get_photo_count h) max_pages target_count).
    destruct (pn <=? 1)%Z eqn:Epn; cbv beta iota zeta.
    + split; [exists 1%nat; split; [reflexivity | lia]|].
      split; [discriminate|]. intros h' Hh'. injection Hh' as <-.
      destruct (Ht (extract_photo_ids h)) as [T1 T2].
      split; [exact T1 | split; [exact T2 | intros _; split; reflexivity]].
    + apply Z.leb_gt in Epn. destruct (pages_needed_gt1 _ _ _ _ Epn) as [Hle Hfull].
      split.
      * fold pn in Hle. exists (Z.to_nat pn). split; [|lia].
        destruct (Z.to_nat pn) as [|m] eqn:Em; [lia|].
        replace (S m - 1)%nat with m by lia. reflexivity.
      * split; [discriminate|]. intros h' Hh'. injection Hh' as <-.
        destruct (Ht (collect_pages (extract_photo_ids h) target_count
                        (map (fetch_page g sort_by) (seq 2 (Z.to_nat pn - 1)))))
          as [T1 T2].
        split; [exact T1 | split; [exact T2 | intros Hlt; lia]].
  - split; [exists 1%nat; split; [reflexivity | lia]|].
    split; [intros _; split; reflexivity | intros h' Hh'; discriminate Hh'].
Qed.

Lemma search_provenance (g : gallery) (s : string) (mp t : Z) (x : string) :
  In x (fst (fst (search_gallery_pages_parallel g s mp t))) ->
  exists p h, g s p = Some h /\ In x (extract_photo_ids h).
Proof.
  unfold search_gallery_pages_parallel.
  destruct (g s 1%nat) as [h|] eqn:Eg; [|intros []].
  assert (H0 : In x (set_update [] (extract_photo_ids h)) ->
               exists p h, g s p = Some h /\ In x (extract_photo_ids h)).
  { intros Hx. apply In_set_update in Hx. destruct Hx as [[]|Hx].
    exists 1%nat, h. split; [exact Eg | exact Hx]. }
  destruct (_ <=? 1)%Z; cbn [fst]; [exact H0|].
  intros Hx. apply FinderProofs.collect_pages_In in Hx.
  destruct Hx as [Hx|[r [Hr Hx]]]; [exact (H0 Hx)|].
  apply in_map_iff in Hr. destruct Hr as [p [<- _]]. unfold fetch_page in Hx.
  destruct (g s p) as [h'|] eqn:E; [|destruct Hx].
  exists p, h'. split; [exact E | exact Hx].
Qed.

Lemma alternate_sorts_from (g : gallery) (sorts : list string) (m goal : Z)
    (a : list string) (x : string) :
  In x (alternate_sorts g sorts m goal a) ->
  In x a \/ exists s, In s sorts /\
                      In x (fst (fst (search_gallery_pages_parallel g s 3 m))).
Proof.
  revert a. induction sorts as [|s r IH]; intros a H; simpl in H; [left; exact H|].
  assert (Hnw : forall y, In y (set_diff (fst (fst (search_gallery_pages_parallel g s 3 m))) a) ->
            In y (fst (fst (search_gallery_pages_parallel g s 3 m)))).
  { intros y Hy. unfold set_diff in Hy. apply filter_In in Hy. tauto. }
  destruct (set_diff (fst (fst (search_gallery_pages_parallel g s 3 m))) a) as [|n ns].
  - destruct (IH a H) as [Hx|[s' [Hs' Hx]]]; [left; exact Hx|].
    right. exists s'. split; [right; exact Hs' | exact Hx].
  - destruct (goal <=? _)%Z.
    + apply In_set_update in H. destruct H as [H|H]; [left; exact H|].
      right. exists s. split; [left; reflexivity | apply Hnw, H].
    + apply IH in H. destruct H as [H|[s' [Hs' Hx]]].
      * apply In_set_update in H. destruct H as [H|H]; [left; exact H|].
        right. exists s. split; [left; reflexivity | apply Hnw, H].
      * right. exists s'. split; [right; exact Hs' | exact Hx].
Qed.

(** Every identifier [find_photos] returns was read from a gallery page
    of one of the sort orders "newest", "oldest", "popular"; the total it
    reports is never negative, and a total of 0 comes with no
    identifier. *)
Theorem find_photos_provenance (cfg : config) (g : gallery) :
  (forall x, In x (fst (find_photos cfg g)) ->
     exists s p h, In s ["newest"; "oldest"; "popular"] /\ g s p = Some h /\
                   In x (extract_photo_ids h)) /\
  (0 <= snd (find_photos cfg g))%Z /\
  (snd (find_photos cfg g) = 0%Z -> fst (find_photos cfg g) = []).
Proof.
  unfold find_photos.
  pose proof (search_provenance g "newest" (max_gallery_pages cfg)
                (Z.of_nat (max_photos_per_imo cfg))) as Hs.
  destruct (search_gallery_pages_parallel g "newest" (max_gallery_pages cfg)
              (Z.of_nat (max_photos_per_imo cfg))) as [[ids total] pages].
  cbn [fst] in Hs. cbv beta iota zeta.
  assert (H0 : forall y, In y (set_update [] ids) ->
            exists s p h, In s ["newest"; "oldest"; "popular"] /\ g s p = Some h /\
                          In y (extract_photo_ids h)).
  { intros y Hy. apply In_set_update in Hy. destruct Hy as [[]|Hy].
    destruct (Hs y Hy) as [p [h [Hp Hy']]].
    exists "newest", p, h. split; [left; reflexivity | split; assumption]. }
  destruct (total =? 0)%Z eqn:E0; cbn [fst snd].
  - split; [intros x []|split; [lia | reflexivity]].
  - split; [|split].
    + intros x Hx. apply FinderProofs.In_firstn_str in Hx.
      destruct (_ && _); [|exact (H0 x Hx)].
      apply alternate_sorts_from in Hx. destruct Hx as [Hx|[so [Hso Hx]]];
        [exact (H0 x Hx)|].
      destruct (search_provenance _ _ _ _ x Hx) as [p [h [Hp Hx']]].
      exists so, p, h. split; [right; exact Hso | split; assumption].
    + destruct (0 <? total)%Z eqn:E; [apply Z.ltb_lt in E; lia | lia].
    + apply Z.eqb_neq in E0. destruct (0 <? total)%Z; [intros; contradiction|].
      intros Hl. apply length_zero_iff_nil. lia.
Qed.

Lemma drop_while_app_all {A} (p : A -> bool) (l1 l2 : list A) :
  Forall (fun x => p x = true) l1 -> drop_while p (l1 ++ l2) = drop_while p l2.
Proof. induction 1 as [|x l Hx Hl IH]; simpl; [reflexivity | rewrite Hx; exact IH]. Qed.

Lemma search_toks_skip (r : list tok) (l1 l2 : list ascii) :
  Forall (fun c => is_ascii_digit c = false) l1 ->
  search_toks (TDigits :: r) (l1 ++ l2) = search_toks (TDigits :: r) l2.
Proof.
  induction 1 as [|c l Hc Hl IH]; [reflexivity|].
  assert (M : match_toks (TDigits :: r) (c :: l ++ l2) = None)
    by (cbn [match_toks take_while]; rewrite Hc; reflexivity).
  cbn [app search_toks]. rewrite M. exact IH.
Qed.

Lemma match_toks_TDigits (r : list tok) (l : list ascii) :
  match_toks (TDigits :: r) l =
  match take_while is_ascii_digit l with
  | [] => None
  | d => match match_toks r (drop_while is_ascii_digit l) with
         | Some _ => Some d
         | None => None
         end
  end.
Proof. reflexivity. Qed.

(** [get_photo_count] on a page whose text reads "<n> photos found" after
    a part without digits gives [n]. *)
Theorem photo_count_from_text (hs : list (option string)) (t s rest : string)
    (Ht : forallb (fun c => negb (is_ascii_digit c)) (list_ascii_of_string t) = true)
    (Hs : str_isdigit s = true) :
  get_photo_count (mkHtml hs (t ++ s ++ " photos found" ++ rest))
  = digits_value (list_ascii_of_string s).
Proof.
  assert (Hd : Forall (fun c => is_ascii_digit c = true) (list_ascii_of_string s)).
  { destruct s as [|c s']; [discriminate Hs|].
    apply Forall_forall, forallb_forall, Hs. }
  assert (Hnd : Forall (fun c => is_ascii_digit c = false) (list_ascii_of_string t)).
  { apply Forall_forall. intros c Hc. apply forallb_forall with (x := c) in Ht;
      [|exact Hc]. apply negb_true_iff, Ht. }
  set (L := list_ascii_of_string (" photos found" ++ rest)).
  assert (HL : match_toks [TSpaces; TWord "photo"; TOpt "s"%char; TSpaces; TWord "found"] L
               = Some []) by reflexivity.
  assert (HtL : take_while is_ascii_digit L = []) by reflexivity.
  assert (HdL : drop_while is_ascii_digit L = L) by reflexivity.
  assert (M : match_toks (hd [] count_patterns) (list_ascii_of_string s ++ L)
              = Some (list_ascii_of_string s)).
  { cbn [hd count_patterns]. rewrite match_toks_TDigits.
    rewrite take_while_app_all, drop_while_app_all by exact Hd.
    rewrite HtL, app_nil_r, HdL, HL.
    destruct s as [|c s']; [discriminate Hs | reflexivity]. }
  unfold get_photo_count, page_text. cbv beta zeta iota delta [count_patterns].
  rewrite list_ascii_app, (list_ascii_app s).
  fold L. rewrite search_toks_skip by exact Hnd.
  assert (S1 : search_toks (hd [] count_patterns) (list_ascii_of_string s ++ L)
               = Some (list_ascii_of_string s)).
  { destruct (list_ascii_of_string s ++ L)%list as [|c l] eqn:E;
      cbn [search_toks]; rewrite M; reflexivity. }
  cbn [hd count_patterns] in S1. rewrite S1. reflexivity.
Qed.

Lemma photo_count_from_text_witness :
  forallb (fun c => negb (is_ascii_digit c)) (list_ascii_of_string "Gallery: ") = true /\
  str_isdigit "137" = true /\
  get_photo_count (mkHtml [] ("Gallery: " ++ "137" ++ " photos found" ++ " (page 1)"))
  = 137%Z.
Proof.
  split; [reflexivity | split; [reflexivity|]].
  rewrite (photo_count_from_text [] "Gallery: " "137" " (page 1)" eq_refl eq_refl).
  reflexivity.
Defined.

End FinderExtra.

(** ** Image fetch, batch upload and orchestration *)
Module PipelineExtra.
Import Pipeline ExtraSpec.

Lemma upload_batch_props (client : string -> Uploader.download)
    (upload_ok : string -> bool) (imo : string) (pids : list string)
    (st : Gcs.state) (x : string) :
  let '(n, st') := UploaderBatch.upload_batch client upload_ok imo pids st in
  n = List.length (filter (fun pid =>
        fst (Uploader.download_and_upload_image client (upload_ok pid) pid)) pids) /\
  Gcs.persisted st' = Gcs.persisted st /\ Gcs.cached_imos st' = Gcs.cached_imos st /\
  (In x (Gcs.new_imos st') <-> In x (Gcs.new_imos st) \/ (x = imo /\ 0 < n)%nat).
Proof.
  revert st. induction pids as [|pid r IH]; intros st.
  - cbn. split; [reflexivity|split; [reflexivity|split; [reflexivity|]]].
    split; [intros H; left; exact H | intros [H|[_ H]]; [exact H | lia]].
  - cbn [UploaderBatch.upload_batch filter].
    unfold UploaderBatch.download_and_upload_image_st.
    destruct (fst (Uploader.download_and_upload_image client (upload_ok pid) pid)).
    + specialize (IH (snd (Gcs.upload_image true imo st))).
      destruct (UploaderBatch.upload_batch client upload_ok imo r
                  (snd (Gcs.upload_image true imo st))) as [n st2].
      cbn [Gcs.upload_image snd Gcs.persisted Gcs.cached_imos Gcs.new_imos] in IH.
      destruct IH as [Hn [Hp [Hc Hi]]]. cbv beta iota.
      split; [cbn [List.length]; rewrite Hn; reflexivity|].
      split; [exact Hp|split; [exact Hc|]].
      rewrite Hi, In_set_add. split.
      * intros [[->|H]|[-> _]]; [right; split; [reflexivity | lia] | left; exact H |].
        right. split; [reflexivity | lia].
      * intros [H|[-> _]]; [left; right; exact H | left; left; reflexivity].
    + specialize (IH (snd (Gcs.upload_image false imo st))).
      destruct (UploaderBatch.upload_batch client upload_ok imo r
                  (snd (Gcs.upload_image false imo st))) as [n st2].
      cbn [Gcs.upload_image snd] in IH. exact IH.
Qed.

(** [GCSImageUploader.upload_batch] counts the photos whose download and
    upload succeeded, leaves the persisted index and the cache alone, and
    marks the vessel pending exactly when one of them succeeded. *)
Theorem upload_batch_counts (client : string -> Uploader.download)
    (upload_ok : string -> bool) (imo : string) (photo_ids : list string)
    (st : Gcs.state) (x : string) :
  let '(n, st') := UploaderBatch.upload_batch client upload_ok imo photo_ids st in
  n = List.length (filter (fun pid =>
        fst (Uploader.download_and_upload_image client (upload_ok pid) pid)) photo_ids) /\
  (n <= List.length photo_ids)%nat /\
  Gcs.persisted st' = Gcs.persisted st /\ Gcs.cached_imos st' = Gcs.cached_imos st /\
  (In x (Gcs.new_imos st') <-> In x (Gcs.new_imos st) \/ (x = imo /\ 0 < n)%nat).
Proof.
  pose proof (upload_batch_props client upload_ok imo photo_ids st x) as U.
  pose proof (filter_length_split (fun pid =>
     fst (Uploader.download_and_upload_image client (upload_ok pid) pid)) photo_ids) as L.
  cbv beta in L.
  destruct (UploaderBatch.upload_batch client upload_ok imo photo_ids st) as [n st'].
  destruct U as [Hn U]. split; [exact Hn | split; [|exact U]].
  rewrite Hn. lia.
Qed.

Lemma find_photos_length (cfg : Finder.config) (g : Finder.gallery) :
  (List.length (fst (Finder.find_photos cfg g)) <= Finder.max_photos_per_imo cfg)%nat.
Proof.
  unfold Finder.find_photos.
  destruct (Finder.search_gallery_pages_parallel g "newest" (Finder.max_gallery_pages cfg)
              (Z.of_nat (Finder.max_photos_per_imo cfg))) as [[ids total] pages].
  cbv beta iota zeta. destruct (total =? 0)%Z; cbn [fst List.length];
    [lia | apply firstn_le_length].
Qed.

(** [scrape_imo_async] reports the vessel, the photos [find_photos] found
    and the total it read; no more images are stored than found, nor
    found than [max_photos_per_imo]; the index is touched only by marking
    the vessel pending, which happens exactly when an image was stored. *)
Theorem scrape_imo_async_result (cfg : Finder.config) (g : Finder.gallery)
    (client : string -> Uploader.download) (upload_ok : string -> bool)
    (imo : string) (st : Gcs.state) (x : string) :
  let '(r, st') := scrape_imo_async cfg g client upload_ok imo st in
  sr_imo r = imo /\
  found r = List.length (fst (Finder.find_photos cfg g)) /\
  total_available r = snd (Finder.find_photos cfg g) /\
  (downloaded r <= found r <= Finder.max_photos_per_imo cfg)%nat /\
  Gcs.persisted st' = Gcs.persisted st /\ Gcs.cached_imos st' = Gcs.cached_imos st /\
  (In x (Gcs.new_imos st') <-> In x (Gcs.new_imos st) \/ (x = imo /\ 0 < downloaded r)%nat).
Proof.
  pose proof (find_photos_length cfg g) as Hlen.
  unfold scrape_imo_async.
  destruct (Finder.find_photos cfg g) as [ids total]. cbn [fst snd] in *.
  destruct ids as [|i0 is].
  - cbn. repeat split; try reflexivity; try lia.
    + intros H; left; exact H.
    + intros [H|[_ H]]; [exact H | lia].
  - pose proof (upload_batch_props client upload_ok imo (i0 :: is) st x) as U.
    pose proof (filter_length_split (fun pid =>
       fst (Uploader.download_and_upload_image client (upload_ok pid) pid)) (i0 :: is)) as L.
    cbv beta in L.
    destruct (UploaderBatch.upload_batch client upload_ok imo (i0 :: is) st) as [n st'].
    destruct U as [Hn [Hp [Hc Hi]]]. cbv beta iota. cbn [sr_imo found total_available downloaded].
    repeat split; try reflexivity; try assumption; try lia.
    + apply Hi.
    + apply Hi.
Qed.

Lemma batch_slice_firstn (l : list string) (B s : nat) :
  batch_slice l B s = firstn B (skipn s l).
Proof.
  unfold batch_slice.
  replace (Nat.min (s + B) (List.length l) - s)%nat
    with (Nat.min B (List.length (skipn s l))) by (rewrite length_skipn; lia).
  destruct (Nat.le_ge_cases B (List.length (skipn s l))) as [H|H].
  - rewrite Nat.min_l by exact H. reflexivity.
  - rewrite Nat.min_r by exact H. rewrite firstn_all, firstn_all2 by exact H.
    reflexivity.
Qed.

Lemma concat_slices (l : list string) (B j m : nat) :
  (List.length l <= (j + m) * B)%nat ->
  concat (map (fun i => firstn B (skipn (i * B) l)) (seq j m)) = skipn (j * B) l.
Proof.
  revert j. induction m as [|m IH]; intros j H.
  - cbn [seq map concat]. symmetry. apply skipn_all2.
    rewrite Nat.add_0_r in H. exact H.
  - cbn [seq map concat]. rewrite IH.
    + change (S j * B)%nat with (B + j * B)%nat.
      rewrite <- skipn_skipn. apply firstn_skipn.
    + replace (S j + m)%nat with (j + S m)%nat by lia. exact H.
Qed.

Lemma batch_count_cover (n B : nat) :
  (0 < B)%nat -> (n <= (n + B - 1) / B * B)%nat /\ ((n + B - 1) / B * B <= n + B - 1)%nat.
Proof.
  intros HB.
  pose proof (Nat.div_mod (n + B - 1) B ltac:(lia)) as D.
  pose proof (Nat.mod_upper_bound (n + B - 1) B ltac:(lia)) as M.
  nia.
Qed.

Lemma batches_concat (l : list string) (B : nat) :
  (0 < B)%nat ->
  concat (map (batch_slice l B) (batch_starts (List.length l) B)) = l.
Proof.
  intros HB. unfold batch_starts. rewrite map_map.
  rewrite (map_ext _ (fun i => firstn B (skipn (i * B) l)))
    by (intros i; apply batch_slice_firstn).
  rewrite concat_slices; [reflexivity|].
  destruct (batch_count_cover (List.length l) B HB) as [H _]. exact H.
Qed.

(** [process_imos] cuts the vessel list into consecutive batches of
    [BATCH_SIZE] (the last one shorter): joined, they give back the list,
    and none is empty. *)
Theorem batches_cover (l : list string) (B : nat) (HB : (0 < B)%nat) :
  concat (map (batch_slice l B) (batch_starts (List.length l) B)) = l /\
  Forall (fun b => 1 <= List.length b <= B)%nat
         (map (batch_slice l B) (batch_starts (List.length l) B)).
Proof.
  split; [apply batches_concat, HB|].
  apply Forall_forall. intros b Hb. unfold batch_starts in Hb.
  rewrite map_map in Hb. apply in_map_iff in Hb. destruct Hb as [i [<- Hi]].
  apply in_seq in Hi. rewrite batch_slice_firstn, length_firstn, length_skipn.
  destruct (batch_count_cover (List.length l) B HB) as [_ H2].
  assert (i * B + B <= (List.length l + B - 1) / B * B)%nat by nia.
  lia.
Qed.

Lemma batches_cover_witness :
  (0 < 2)%nat /\
  concat (map (batch_slice ["9169031"; "9289972"; "9387421"; "9734567"; "9123456"] 2)
              (batch_starts 5 2))
  = ["9169031"; "9289972"; "9387421"; "9734567"; "9123456"].
Proof.
  split; [lia|].
  exact (proj1 (batches_cover ["9169031"; "9289972"; "9387421"; "9734567"; "9123456"]
                  2 ltac:(lia))).
Defined.





End PipelineExtra.
